(** * A shallow embedding of the limit-order matching engine

    The development follows the Python sources:
      - [src/models/orders.py]          (Order, Trade, BBO, OrderBookSnapshot)
      - [src/matching_engine/order_book.py] (PriceLevel, OrderBook)
      - [src/matching_engine/engine.py]     (MatchingEngine)
      - [src/api/server.py]                 (the REST handlers for cancels and queries)

    Modelling conventions.
      - A [Decimal] is an exact integer number of minimal increments ([Z]);
        the engine only adds, subtracts, compares and takes minima, all of
        which are exact here (context rounding of very long decimals is
        outside the model).  [str] of a decimal is the decimal numeral.
      - Python objects that the engine mutates in place are threaded
        explicitly: every operation returns the new engine together with
        the new state of the order it was handed.
      - A raised exception is a value ([Raise]); the state reached when it
        was raised is kept, as it is in Python.
      - Wall-clock timestamps and generated uuids are not represented: no
        branch of the engine reads them.  An order identifier is always
        supplied by the caller.
      - Subscriber callbacks are outside the core and are not represented.
      - Every submission hands the engine an [Order] object of its own; an
        object that is submitted while it already rests in a book is outside
        the model. *)

From stdpp Require Import base option list gmap strings pretty sorting.
From Stdlib Require Import ZArith Lia.

Local Open Scope string_scope.
Local Open Scope list_scope.
Local Open Scope Z_scope.

(** ** Python-level plumbing *)

Inductive exn : Type :=
  | ValueError (msg : string)
  | TypeError (msg : string)
  | KeyError (msg : string).

Inductive result (A : Type) : Type :=
  | Ok (a : A)
  | Raise (e : exn).
Arguments Ok {A} a.
Arguments Raise {A} e.

(** The values that appear in the dictionaries handed to API callers. *)
Inductive pyval : Type :=
  | PyNone
  | PyStr (s : string)
  | PyList (l : list (string * string)).

(** [str(d)] for a decimal [d]. *)
Definition str_decimal (d : Z) : string := pretty d.

(** Truthiness of an [Optional[Decimal]]: [None] and zero are falsy. *)
Definition truthy (d : option Z) : bool :=
  match d with
  | None => false
  | Some v => negb (v =? 0)
  end.

(** ** models/orders.py *)

Inductive OrderType : Type := MARKET | LIMIT | IOC | FOK.
Inductive OrderSide : Type := BUY | SELL.
Inductive OrderStatus : Type := PENDING | PARTIAL | FILLED | CANCELLED | REJECTED.

#[global] Instance OrderType_eq_dec : EqDecision OrderType.
Proof. solve_decision. Defined.
#[global] Instance OrderSide_eq_dec : EqDecision OrderSide.
Proof. solve_decision. Defined.
#[global] Instance OrderStatus_eq_dec : EqDecision OrderStatus.
Proof. solve_decision. Defined.

Definition OrderSide_value (s : OrderSide) : string :=
  match s with BUY => "buy" | SELL => "sell" end.

Definition OrderStatus_value (s : OrderStatus) : string :=
  match s with
  | PENDING => "pending" | PARTIAL => "partial" | FILLED => "filled"
  | CANCELLED => "cancelled" | REJECTED => "rejected"
  end.

Module Order.

Record t : Type := mk {
  order_id : string;
  symbol : string;
  order_type : OrderType;
  side : OrderSide;
  quantity : Z;
  price : option Z;
  status : OrderStatus;
  filled_quantity : Z;
  remaining_quantity : Z
}.

Definition set_status (o : t) (s : OrderStatus) : t :=
  mk (order_id o) (symbol o) (order_type o) (side o) (quantity o) (price o)
     s (filled_quantity o) (remaining_quantity o).

(** The dataclass constructor followed by [__post_init__]; the checks run
    in the order of the source.  The message of the second check starts
    with the order type in the source. *)
Definition init (order_id symbol : string) (order_type : OrderType)
    (side : OrderSide) (quantity : Z) (price : option Z)
    (status : OrderStatus) (filled_quantity : Z) : result t :=
  let remaining_quantity := quantity - filled_quantity in
  if quantity <=? 0 then
    Raise (ValueError "Order quantity must be positive")
  else if negb (bool_decide (order_type = MARKET)) && negb (bool_decide (is_Some price)) then
    Raise (ValueError "orders require a price")
  else if bool_decide (order_type = MARKET) && bool_decide (is_Some price) then
    Raise (ValueError "Market orders should not have a price")
  else if match price with Some p => p <=? 0 | None => false end then
    Raise (ValueError "Order price must be positive")
  else
    Ok (mk order_id symbol order_type side quantity price status
           filled_quantity remaining_quantity).

(** Construction with the defaults of the dataclass for the lifecycle
    fields: [status = PENDING], [filled_quantity = Decimal("0")]. *)
Definition new (order_id symbol : string) (order_type : OrderType)
    (side : OrderSide) (quantity : Z) (price : option Z) : result t :=
  init order_id symbol order_type side quantity price PENDING 0.

Definition fill (o : t) (qty : Z) : result t :=
  if qty <=? 0 then
    Raise (ValueError "Fill quantity must be positive")
  else if remaining_quantity o <? qty then
    Raise (ValueError "Fill quantity exceeds remaining quantity")
  else
    let filled' := filled_quantity o + qty in
    let remaining' := remaining_quantity o - qty in
    let status' :=
      if remaining' =? 0 then FILLED
      else if 0 <? filled' then PARTIAL
      else status o in
    Ok (mk (order_id o) (symbol o) (order_type o) (side o) (quantity o)
           (price o) status' filled' remaining').


End Order.

Module Trade.

Record t : Type := mk {
  symbol : string;
  price : Z;
  quantity : Z;
  aggressor_side : OrderSide;
  maker_order_id : string;
  taker_order_id : string
}.

End Trade.

Module BBO.

Record t : Type := mk {
  symbol : string;
  best_bid : option Z;
  best_bid_quantity : Z;
  best_ask : option Z;
  best_ask_quantity : Z
}.

Definition to_dict (b : t) : gmap string pyval :=
  <["symbol" := PyStr (symbol b)]>
  (<["best_bid" := if truthy (best_bid b)
                   then PyStr (str_decimal (default 0 (best_bid b)))
                   else PyNone]>
  (<["best_bid_quantity" := PyStr (str_decimal (best_bid_quantity b))]>
  (<["best_ask" := if truthy (best_ask b)
                   then PyStr (str_decimal (default 0 (best_ask b)))
                   else PyNone]>
  (<["best_ask_quantity" := PyStr (str_decimal (best_ask_quantity b))]> ∅)))).

End BBO.

Module OrderBookSnapshot.

Record t : Type := mk {
  symbol : string;
  bids : list (string * string);
  asks : list (string * string)
}.

Definition to_dict (s : t) : gmap string pyval :=
  <["symbol" := PyStr (symbol s)]>
  (<["bids" := PyList (bids s)]>
  (<["asks" := PyList (asks s)]> ∅)).

End OrderBookSnapshot.

(** ** matching_engine/order_book.py *)

(** [sortedcontainers.SortedDict]: a dictionary whose iteration order is the
    order of [key k] over its keys.  It is kept as the list of its items in
    iteration order.  The asks use the identity as key function, the bids
    use [lambda x: -x]. *)
Module SortedDict.
Section defs.
Context {V : Type}.

Definition t : Type := list (Z * V).

(** [m.get(k)]; [k in m] is [is_Some (lookup k m)]. *)
Fixpoint lookup (k : Z) (m : t) : option V :=
  match m with
  | [] => None
  | (k', v) :: m' => if k' =? k then Some v else lookup k m'
  end.

(** The value stored under [k] is replaced (the object stored there was
    mutated in place). *)
Fixpoint replace (k : Z) (v : V) (m : t) : t :=
  match m with
  | [] => []
  | (k', v') :: m' =>
      if k' =? k then (k', v) :: m' else (k', v') :: replace k v m'
  end.

(** A new key goes before the first item whose key compares greater. *)
Fixpoint insert_new (key : Z -> Z) (k : Z) (v : V) (m : t) : t :=
  match m with
  | [] => [(k, v)]
  | (k', v') :: m' =>
      if key k <? key k' then (k, v) :: m
      else (k', v') :: insert_new key k v m'
  end.

(** [m[k] = v] *)
Definition setitem (key : Z -> Z) (k : Z) (v : V) (m : t) : t :=
  match lookup k m with
  | Some _ => replace k v m
  | None => insert_new key k v m
  end.

(** [del m[k]] for a key that is present. *)
Fixpoint delete (k : Z) (m : t) : t :=
  match m with
  | [] => []
  | (k', v) :: m' => if k' =? k then m' else (k', v) :: delete k m'
  end.

Definition keys (m : t) : list Z := m.*1.
Definition items (m : t) : list (Z * V) := m.

(** [m.keys()[0]] when [m] is not empty. *)
Definition first_key (m : t) : option Z := head (keys m).

End defs.
Arguments t : clear implicits.
End SortedDict.

Definition asks_key (x : Z) : Z := x.
Definition bids_key (x : Z) : Z := - x.

Module PriceLevel.

Record t : Type := mk {
  price : Z;
  orders : list Order.t;       (* the deque, head first *)
  total_quantity : Z
}.

Definition init (price : Z) : t := mk price [] 0.

Definition add_order (l : t) (order : Order.t) : t :=
  mk (price l) (orders l ++ [order])
     (total_quantity l + Order.remaining_quantity order).

(** The first order of the deque whose id is [order_id], and the deque
    without it. *)
Fixpoint find_remove (order_id : string) (q : list Order.t)
    : option (Order.t * list Order.t) :=
  match q with
  | [] => None
  | o :: q' =>
      if bool_decide (Order.order_id o = order_id) then Some (o, q')
      else match find_remove order_id q' with
           | Some (r, q'') => Some (r, o :: q'')
           | None => None
           end
  end.

Definition remove_order (l : t) (order_id : string) : t * option Order.t :=
  match find_remove order_id (orders l) with
  | Some (removed_order, q) =>
      (mk (price l) q (total_quantity l - Order.remaining_quantity removed_order),
       Some removed_order)
  | None => (l, None)
  end.

Definition update_quantity (l : t) (quantity_change : Z) : t :=
  mk (price l) (orders l) (total_quantity l + quantity_change).

Definition is_empty (l : t) : bool :=
  bool_decide (length (orders l) = 0%nat) || (total_quantity l =? 0).

(** Mutations of the deque done by the engine on a level it holds. *)
Definition set_orders (l : t) (q : list Order.t) : t :=
  mk (price l) q (total_quantity l).

End PriceLevel.

Module OrderBook.

(** [orders] is the id index.  In Python it holds a reference to the
    resting [Order] object; the only fields ever read through it are
    [side] and [price], which are never written after construction, so
    the index keeps the order as it was when it was registered. *)
Record t : Type := mk {
  symbol : string;
  bids : SortedDict.t PriceLevel.t;
  asks : SortedDict.t PriceLevel.t;
  orders : gmap string Order.t
}.

Definition init (symbol : string) : t := mk symbol [] [] ∅.

(** [self.bids if side == OrderSide.BUY else self.asks] *)
Definition side_book (b : t) (side : OrderSide) : SortedDict.t PriceLevel.t :=
  match side with BUY => bids b | SELL => asks b end.

Definition side_key (side : OrderSide) : Z -> Z :=
  match side with BUY => bids_key | SELL => asks_key end.

Definition set_side_book (b : t) (side : OrderSide)
    (m : SortedDict.t PriceLevel.t) : t :=
  match side with
  | BUY => mk (symbol b) m (asks b) (orders b)
  | SELL => mk (symbol b) (bids b) m (orders b)
  end.

Definition set_orders (b : t) (idx : gmap string Order.t) : t :=
  mk (symbol b) (bids b) (asks b) idx.

(** A price of [None] is not a key of the maps of this development: Python
    fails with a [TypeError] when it negates it or compares it with a
    decimal key.  The engine hands [add_order] LIMIT orders only, which
    have a price by construction. *)
Definition add_order (b : t) (order : Order.t) : result t :=
  if Order.remaining_quantity order <=? 0 then Ok b
  else
    match Order.price order with
    | None => Raise (TypeError "price is None")
    | Some price =>
        let side := Order.side order in
        let book := side_book b side in
        let book1 :=
          match SortedDict.lookup price book with
          | None => SortedDict.setitem (side_key side) price (PriceLevel.init price) book
          | Some _ => book
          end in
        let book2 :=
          match SortedDict.lookup price book1 with
          | Some l => SortedDict.replace price (PriceLevel.add_order l order) book1
          | None => book1
          end in
        Ok (set_orders (set_side_book b side book2)
              (<[Order.order_id order := order]> (orders b)))
    end.

Definition remove_order (b : t) (order_id : string) : t * option Order.t :=
  match orders b !! order_id with
  | None => (b, None)
  | Some order =>
      let side := Order.side order in
      let book := side_book b side in
      match Order.price order with
      | None => (b, None)
      | Some price =>
          match SortedDict.lookup price book with
          | None => (b, None)
          | Some l =>
              let '(l', removed) := PriceLevel.remove_order l order_id in
              let book' :=
                if PriceLevel.is_empty l' then SortedDict.delete price book
                else SortedDict.replace price l' book in
              let b' := set_side_book b side book' in
              match removed with
              | Some r => (set_orders b' (delete order_id (orders b')), Some r)
              | None => (b', None)
              end
          end
      end
  end.

Definition update_order_quantity (b : t) (order : Order.t)
    (filled_quantity : Z) : t :=
  let side := Order.side order in
  let book := side_book b side in
  match Order.price order with
  | None => b
  | Some price =>
      match SortedDict.lookup price book with
      | None => b
      | Some l =>
          let l' := PriceLevel.update_quantity l (- filled_quantity) in
          if PriceLevel.is_empty l'
          then set_side_book b side (SortedDict.delete price book)
          else set_side_book b side (SortedDict.replace price l' book)
      end
  end.

Definition get_best_bid (b : t) : option Z := SortedDict.first_key (bids b).
Definition get_best_ask (b : t) : option Z := SortedDict.first_key (asks b).

(** [self.bids[best_bid].total_quantity if best_bid else Decimal("0")];
    [best] was just read from the keys of [m]. *)
Definition best_quantity (m : SortedDict.t PriceLevel.t) (best : option Z) : Z :=
  if truthy best then
    match SortedDict.lookup (default 0 best) m with
    | Some l => PriceLevel.total_quantity l
    | None => 0
    end
  else 0.

Definition get_bbo (b : t) : BBO.t :=
  let best_bid := get_best_bid b in
  let best_ask := get_best_ask b in
  BBO.mk (symbol b)
    best_bid (best_quantity (bids b) best_bid)
    best_ask (best_quantity (asks b) best_ask).

Definition snapshot_side (depth : Z) (m : SortedDict.t PriceLevel.t)
    : list (string * string) :=
  (fun '(price, level) =>
     (str_decimal price, str_decimal (PriceLevel.total_quantity level)))
  <$> take (Z.to_nat depth) (SortedDict.items m).

Definition get_snapshot (b : t) (depth : Z) : OrderBookSnapshot.t :=
  OrderBookSnapshot.mk (symbol b)
    (snapshot_side depth (bids b)) (snapshot_side depth (asks b)).


End OrderBook.

(** ** matching_engine/engine.py *)

(** How a block of Python code ended.  [OutOfFuel] is an artefact of the
    embedding of the [while] loops; [match_order_terminates] shows that it
    never occurs. *)
Inductive outcome : Type :=
  | Completed
  | Raised (e : exn)
  | OutOfFuel.

(** A trade together with the order book as it stood when the [Trade]
    object was constructed.  The engine keeps only the trade; the book is
    recorded so that properties "at the instant of execution" can be
    stated. *)
Record event : Type := mk_event {
  ev_book : OrderBook.t;
  ev_trade : Trade.t
}.

Definition opposite (s : OrderSide) : OrderSide :=
  match s with BUY => SELL | SELL => BUY end.

Module MatchingEngine.

Record t : Type := mk {
  order_books : gmap string OrderBook.t;
  trades : list Trade.t
}.

Definition init : t := mk ∅ [].

Definition get_or_create_order_book (e : t) (symbol : string)
    : t * OrderBook.t :=
  match order_books e !! symbol with
  | Some b => (e, b)
  | None =>
      let b := OrderBook.init symbol in
      (mk (<[symbol := b]> (order_books e)) (trades e), b)
  end.

(** The state threaded through [_match_order].  [level] is the local
    variable [price_level]; it is the same object as the level stored
    under [best_price] in the contra side of [book] for as long as
    [attached] holds, that is until that key is deleted from the map.
    [log] is [self.trades]. *)
Record mstate : Type := mk_mstate {
  order : Order.t;
  book : OrderBook.t;
  level : PriceLevel.t;
  attached : bool;
  events : list event;
  log : list Trade.t
}.

(** [book = order_book.asks if order.side == OrderSide.BUY else order_book.bids] *)
Definition contra (o : Order.t) (b : OrderBook.t) : SortedDict.t PriceLevel.t :=
  OrderBook.side_book b (opposite (Order.side o)).

Definition set_contra (o : Order.t) (b : OrderBook.t)
    (m : SortedDict.t PriceLevel.t) : OrderBook.t :=
  OrderBook.set_side_book b (opposite (Order.side o)) m.

(** A change made to the held level is seen through the map while the
    level is still stored there. *)
Definition store_level (o : Order.t) (att : bool) (best_price : Z)
    (l : PriceLevel.t) (b : OrderBook.t) : OrderBook.t :=
  if att then set_contra o b (SortedDict.replace best_price l (contra o b))
  else b.

(** The price-cross test of the outer loop. *)
Definition beyond_limit (o : Order.t) (best_price : Z) : bool :=
  match Order.price o with
  | None => false
  | Some limit =>
      match Order.side o with
      | BUY => limit <? best_price
      | SELL => best_price <? limit
      end
  end.

(** The inner loop:
    [while order.remaining_quantity > 0 and price_level.orders: ...] *)
Fixpoint match_level (fuel : nat) (best_price : Z) (st : mstate)
    : mstate * outcome :=
  match fuel with
  | O => (st, OutOfFuel)
  | S fuel' =>
      let o := order st in
      if 0 <? Order.remaining_quantity o then
        match PriceLevel.orders (level st) with
        | [] => (st, Completed)
        | resting_order :: rest =>
            let fill_quantity :=
              Z.min (Order.remaining_quantity o)
                    (Order.remaining_quantity resting_order) in
            let trade :=
              Trade.mk (Order.symbol o) best_price fill_quantity
                (Order.side o) (Order.order_id resting_order)
                (Order.order_id o) in
            match Order.fill o fill_quantity with
            | Raise e => (st, Raised e)
            | Ok o1 =>
                match Order.fill resting_order fill_quantity with
                | Raise e =>
                    (mk_mstate o1 (book st) (level st) (attached st)
                       (events st) (log st), Raised e)
                | Ok resting1 =>
                    (* the resting order was updated in place *)
                    let l1 := PriceLevel.set_orders (level st) (resting1 :: rest) in
                    let b1 := store_level o (attached st) best_price l1 (book st) in
                    (* order_book.update_order_quantity(resting_order, fill_quantity) *)
                    let b2 := OrderBook.update_order_quantity b1 resting1 fill_quantity in
                    let '(l2, att2) :=
                      if attached st then
                        match SortedDict.lookup best_price (contra o b2) with
                        | Some l => (l, true)
                        | None =>
                            (PriceLevel.update_quantity l1 (- fill_quantity), false)
                        end
                      else (l1, false) in
                    (* remove a fully filled resting order *)
                    let '(l3, b3) :=
                      if Order.remaining_quantity resting1 =? 0 then
                        let l3 := PriceLevel.set_orders l2 rest in
                        (l3,
                         OrderBook.set_orders
                           (store_level o att2 best_price l3 b2)
                           (delete (Order.order_id resting1)
                              (OrderBook.orders b2)))
                      else (l2, b2) in
                    match_level fuel' best_price
                      (mk_mstate o1 b3 l3 att2
                         (events st ++ [mk_event (book st) trade])
                         (log st ++ [trade]))
                end
            end
        end
      else (st, Completed)
  end.

(** The state threaded through the outer loop. *)
Record ostate : Type := mk_ostate {
  o_order : Order.t;
  o_book : OrderBook.t;
  o_events : list event;
  o_log : list Trade.t
}.

(** The outer loop: [while order.remaining_quantity > 0 and book: ...] *)
Fixpoint match_book (fuel : nat) (st : ostate) : ostate * outcome :=
  match fuel with
  | O => (st, OutOfFuel)
  | S fuel' =>
      let o := o_order st in
      if 0 <? Order.remaining_quantity o then
        match SortedDict.first_key (contra o (o_book st)) with
        | None => (st, Completed)
        | Some best_price =>
            if beyond_limit o best_price then (st, Completed)
            else
              match SortedDict.lookup best_price (contra o (o_book st)) with
              | None => (st, Raised (KeyError "best_price"))
              | Some price_level =>
                  let '(m, out) :=
                    match_level (S (length (PriceLevel.orders price_level)))
                      best_price
                      (mk_mstate o (o_book st) price_level true
                         (o_events st) (o_log st)) in
                  let b := book m in
                  (* remove the price level when it is empty and still stored *)
                  let b' :=
                    if bool_decide (is_Some (SortedDict.lookup best_price (contra o b)))
                       && PriceLevel.is_empty (level m)
                    then set_contra o b (SortedDict.delete best_price (contra o b))
                    else b in
                  match out with
                  | Completed =>
                      match_book fuel'
                        (mk_ostate (order m) b' (events m) (log m))
                  | _ => (mk_ostate (order m) b (events m) (log m), out)
                  end
              end
        end
      else (st, Completed)
  end.

(** [_match_order]: the local list [trades] is [ev_trade <$> o_events]. *)
Definition _match_order (lg : list Trade.t) (o : Order.t) (b : OrderBook.t)
    : ostate * outcome :=
  match_book (S (length (contra o b))) (mk_ostate o b [] lg).

Definition trades_of (st : ostate) : list Trade.t := ev_trade <$> o_events st.

(** What a [_process_*_order] method leaves behind: the order, the book,
    [self.trades], the list it returns and how it ended. *)
Record processed : Type := mk_processed {
  p_order : Order.t;
  p_book : OrderBook.t;
  p_log : list Trade.t;
  p_trades : list Trade.t;
  p_outcome : outcome
}.

Definition _process_market_order (lg : list Trade.t) (o : Order.t)
    (b : OrderBook.t) : processed :=
  let '(st, out) := _match_order lg o b in
  match out with
  | Completed =>
      let o' :=
        if 0 <? Order.remaining_quantity (o_order st)
        then Order.set_status (o_order st) CANCELLED
        else o_order st in
      mk_processed o' (o_book st) (o_log st) (trades_of st) Completed
  | _ => mk_processed (o_order st) (o_book st) (o_log st) [] out
  end.

Definition _process_limit_order (lg : list Trade.t) (o : Order.t)
    (b : OrderBook.t) : processed :=
  let '(st, out) := _match_order lg o b in
  match out with
  | Completed =>
      if 0 <? Order.remaining_quantity (o_order st) then
        match OrderBook.add_order (o_book st) (o_order st) with
        | Ok b' =>
            mk_processed (o_order st) b' (o_log st) (trades_of st) Completed
        | Raise e =>
            mk_processed (o_order st) (o_book st) (o_log st) [] (Raised e)
        end
      else
        mk_processed (o_order st) (o_book st) (o_log st) (trades_of st) Completed
  | _ => mk_processed (o_order st) (o_book st) (o_log st) [] out
  end.

Definition _process_ioc_order (lg : list Trade.t) (o : Order.t)
    (b : OrderBook.t) : processed :=
  let '(st, out) := _match_order lg o b in
  match out with
  | Completed =>
      let o' :=
        if 0 <? Order.remaining_quantity (o_order st)
        then Order.set_status (o_order st) CANCELLED
        else o_order st in
      mk_processed o' (o_book st) (o_log st) (trades_of st) Completed
  | _ => mk_processed (o_order st) (o_book st) (o_log st) [] out
  end.

(** The loop of [_can_fill_completely] over [book.items()]; leaving the
    loop, by [break] or at the end, returns [remaining <= 0]. *)
Fixpoint can_fill_loop (o : Order.t) (remaining : Z)
    (items : list (Z * PriceLevel.t)) : bool :=
  match items with
  | [] => remaining <=? 0
  | (price, lvl) :: items' =>
      if beyond_limit o price then remaining <=? 0
      else if remaining <=? PriceLevel.total_quantity lvl then true
      else can_fill_loop o (remaining - PriceLevel.total_quantity lvl) items'
  end.

Definition _can_fill_completely (o : Order.t) (b : OrderBook.t) : bool :=
  can_fill_loop o (Order.quantity o) (SortedDict.items (contra o b)).

Definition _process_fok_order (lg : list Trade.t) (o : Order.t)
    (b : OrderBook.t) : processed :=
  if negb (_can_fill_completely o b) then
    mk_processed (Order.set_status o CANCELLED) b lg [] Completed
  else
    let '(st, out) := _match_order lg o b in
    match out with
    | Completed =>
        if 0 <? Order.remaining_quantity (o_order st) then
          mk_processed (Order.set_status (o_order st) CANCELLED)
            (o_book st) (o_log st) [] Completed
        else
          mk_processed (o_order st) (o_book st) (o_log st) (trades_of st) Completed
    | _ => mk_processed (o_order st) (o_book st) (o_log st) [] out
    end.

(** The dictionary returned by [submit_order].  [Diverged] stands for a
    loop that ran out of fuel and is never returned
    ([submit_order_returns]). *)
Inductive report : Type :=
  | ExecutionReport (order_id status filled_quantity remaining_quantity : string)
      (trades : list Trade.t)
  | RejectedReport (order_id status : string) (error : exn)
  | Diverged.

Definition process (lg : list Trade.t) (o : Order.t) (b : OrderBook.t)
    : processed :=
  match Order.order_type o with
  | MARKET => _process_market_order lg o b
  | LIMIT => _process_limit_order lg o b
  | IOC => _process_ioc_order lg o b
  | FOK => _process_fok_order lg o b
  end.

(** Returns the engine, the order object as the call left it, and the
    report.  The book is an object of the registry, so whatever was done
    to it is seen through [order_books] even when the call is rejected. *)
Definition submit_order (e : t) (o : Order.t) : t * Order.t * report :=
  let '(e1, b) := get_or_create_order_book e (Order.symbol o) in
  let p := process (trades e1) o b in
  let e2 := mk (<[Order.symbol o := p_book p]> (order_books e1)) (p_log p) in
  match p_outcome p with
  | Completed =>
      let o' := p_order p in
      (e2, o',
       ExecutionReport (Order.order_id o')
         (OrderStatus_value (Order.status o'))
         (str_decimal (Order.filled_quantity o'))
         (str_decimal (Order.remaining_quantity o'))
         (p_trades p))
  | Raised err =>
      (e2, Order.set_status (p_order p) REJECTED,
       RejectedReport (Order.order_id o) (OrderStatus_value REJECTED) err)
  | OutOfFuel => (e2, p_order p, Diverged)
  end.

Inductive cancel_report : Type :=
  | CancelledReport (order_id status : string)
  | CancelError (order_id status message : string).

(** Returns the engine, the order whose status was set to CANCELLED (if
    any) and the report. *)
Definition cancel_order (e : t) (symbol order_id : string)
    : t * option Order.t * cancel_report :=
  match order_books e !! symbol with
  | None =>
      (e, None, CancelError order_id "error" ("No order book for " +:+ symbol))
  | Some order_book =>
      let '(b', removed) := OrderBook.remove_order order_book order_id in
      let e' := mk (<[symbol := b']> (order_books e)) (trades e) in
      match removed with
      | Some o =>
          (e', Some (Order.set_status o CANCELLED),
           CancelledReport order_id (OrderStatus_value CANCELLED))
      | None =>
          (e', None, CancelError order_id "error" "Order not found")
      end
  end.

Definition get_bbo (e : t) (symbol : string) : option (gmap string pyval) :=
  match order_books e !! symbol with
  | Some b => Some (BBO.to_dict (OrderBook.get_bbo b))
  | None => None
  end.

Definition get_order_book_snapshot (e : t) (symbol : string) (depth : Z)
    : option (gmap string pyval) :=
  match order_books e !! symbol with
  | Some b => Some (OrderBookSnapshot.to_dict (OrderBook.get_snapshot b depth))
  | None => None
  end.

End MatchingEngine.

(** ** api/server.py

    The bodies of the REST handlers that only read the engine or cancel an
    order.  The engine is the module-level object [engine]; it is threaded
    explicitly here.  A handler either returns a dictionary or raises an
    [HTTPException]. *)

Module api.

Inductive response (A : Type) : Type :=
  | Returned (a : A)
  | HTTPException (status_code : Z) (detail : option string).
Arguments Returned {A} a.
Arguments HTTPException {A} status_code detail.

(** [result.get("status")] and [result.get("message")] on the dictionary
    returned by [MatchingEngine.cancel_order]. *)
Definition get_status (r : MatchingEngine.cancel_report) : string :=
  match r with
  | MatchingEngine.CancelledReport _ status => status
  | MatchingEngine.CancelError _ status _ => status
  end.

Definition get_message (r : MatchingEngine.cancel_report) : option string :=
  match r with
  | MatchingEngine.CancelledReport _ _ => None
  | MatchingEngine.CancelError _ _ message => Some message
  end.

Definition cancel_order (engine : MatchingEngine.t) (symbol order_id : string)
    : MatchingEngine.t * response MatchingEngine.cancel_report :=
  let '(engine', _, result) := MatchingEngine.cancel_order engine symbol order_id in
  if bool_decide (get_status result = "error")
  then (engine', HTTPException 404 (get_message result))
  else (engine', Returned result).

Definition get_bbo (engine : MatchingEngine.t) (symbol : string)
    : response (gmap string pyval) :=
  match MatchingEngine.get_bbo engine symbol with
  | None => HTTPException 404 (Some ("No order book for " +:+ symbol))
  | Some bbo => Returned bbo
  end.

Definition get_order_book (engine : MatchingEngine.t) (symbol : string)
    (depth : Z) : response (gmap string pyval) :=
  match MatchingEngine.get_order_book_snapshot engine symbol depth with
  | None => HTTPException 404 (Some ("No order book for " +:+ symbol))
  | Some snapshot => Returned snapshot
  end.

End api.

(** * Specification *)

Import MatchingEngine.

(** ** Well-formed books

    The invariant that every book of a reachable engine satisfies: the
    levels are keyed by their price and sorted from the best price outward,
    a level holds a non-empty queue of LIMIT orders of its side and price
    that still have quantity, its aggregate is the sum of what remains of
    them, bids are below asks, and an id of the index names an order that
    rests in the level the index entry points to. *)

Definition sum_remaining (q : list Order.t) : Z :=
  foldr (fun o acc => Order.remaining_quantity o + acc) 0 q.

(** The order [o] after fills that add up to [f]. *)
Definition filled_by (o : Order.t) (f : Z) (st : OrderStatus) : Order.t :=
  Order.mk (Order.order_id o) (Order.symbol o) (Order.order_type o)
    (Order.side o) (Order.quantity o) (Order.price o) st
    (Order.filled_quantity o + f) (Order.remaining_quantity o - f).

Definition fill_status (o : Order.t) (q : Z) : OrderStatus :=
  if Order.remaining_quantity o - q =? 0 then FILLED
  else if 0 <? Order.filled_quantity o + q then PARTIAL
  else Order.status o.

Definition live (s : OrderStatus) : Prop := s = PENDING ∨ s = PARTIAL.

Record resting_ok (sd : OrderSide) (p : Z) (o : Order.t) : Prop := {
  ro_side : Order.side o = sd;
  ro_price : Order.price o = Some p;
  ro_remaining : 0 < Order.remaining_quantity o;
  ro_type : Order.order_type o = LIMIT;
  ro_status : live (Order.status o)
}.

Record level_ok (sd : OrderSide) (kl : Z * PriceLevel.t) : Prop := {
  lo_price : PriceLevel.price kl.2 = kl.1;
  lo_positive : 0 < kl.1;
  lo_nonempty : PriceLevel.orders kl.2 ≠ [];
  lo_orders : Forall (resting_ok sd kl.1) (PriceLevel.orders kl.2);
  lo_total : PriceLevel.total_quantity kl.2 = sum_remaining (PriceLevel.orders kl.2)
}.

Definition side_sorted (sd : OrderSide) (m : SortedDict.t PriceLevel.t) : Prop :=
  StronglySorted (fun a b => OrderBook.side_key sd a.1 < OrderBook.side_key sd b.1) m.

Definition uncrossed (b : OrderBook.t) : Prop :=
  ∀ kb ka, kb ∈ (OrderBook.bids b).*1 → ka ∈ (OrderBook.asks b).*1 → kb < ka.

Definition index_ok (b : OrderBook.t) : Prop :=
  ∀ id o, OrderBook.orders b !! id = Some o →
    ∃ p l r, Order.price o = Some p ∧
      SortedDict.lookup p (OrderBook.side_book b (Order.side o)) = Some l ∧
      r ∈ PriceLevel.orders l ∧ Order.order_id r = id.

Record book_ok (b : OrderBook.t) : Prop := {
  ok_levels : ∀ sd, Forall (level_ok sd) (OrderBook.side_book b sd);
  ok_sorted : ∀ sd, side_sorted sd (OrderBook.side_book b sd);
  ok_uncrossed : uncrossed b;
  ok_index : index_ok b
}.

(** ** What matching does on a well-formed book *)

Definition sum_quantity (ts : list Trade.t) : Z :=
  foldr (fun t acc => Trade.quantity t + acc) 0 ts.

(** A trade made at the head of the first contra level, inside the limit of
    the aggressor [o]. *)
Record event_ok (o : Order.t) (ev : event) : Prop := {
  eo_book : book_ok (ev_book ev);
  eo_head : ∃ l r rest m',
    contra o (ev_book ev) = (Trade.price (ev_trade ev), l) :: m' ∧
    PriceLevel.orders l = r :: rest ∧
    Trade.maker_order_id (ev_trade ev) = Order.order_id r ∧
    Trade.quantity (ev_trade ev) ≤ Order.remaining_quantity r;
  eo_taker : Trade.taker_order_id (ev_trade ev) = Order.order_id o;
  eo_side : Trade.aggressor_side (ev_trade ev) = Order.side o;
  eo_symbol : Trade.symbol (ev_trade ev) = Order.symbol o;
  eo_quantity : 0 < Trade.quantity (ev_trade ev);
  eo_limit : beyond_limit o (Trade.price (ev_trade ev)) = false
}.

(** The trade of [ev] takes all that was left of its maker. *)
Definition ev_exhausts (o : Order.t) (ev : event) : Prop :=
  ∃ l r rest m',
    contra o (ev_book ev) = (Trade.price (ev_trade ev), l) :: m' ∧
    PriceLevel.orders l = r :: rest ∧
    Trade.maker_order_id (ev_trade ev) = Order.order_id r ∧
    Trade.quantity (ev_trade ev) = Order.remaining_quantity r.

(** Every trade that is followed by another one exhausted its maker. *)
Fixpoint fifo_chain (o : Order.t) (evs : list event) : Prop :=
  match evs with
  | [] => True
  | ev :: evs' => (evs' ≠ [] → ev_exhausts o ev) ∧ fifo_chain o evs'
  end.

(** The inner loop, run on the first contra level [(k, level st)] of a
    well-formed book with the other contra levels [m']: the order takes the
    smaller of what it still wants and what the level holds. *)
Record level_post (k : Z) (m' : SortedDict.t PriceLevel.t) (st st' : mstate) : Prop := {
  lp_order :
    order st' = filled_by (order st)
      (Z.min (Order.remaining_quantity (order st)) (PriceLevel.total_quantity (level st)))
      (Order.status (order st'));
  lp_filled :
    0 < Z.min (Order.remaining_quantity (order st)) (PriceLevel.total_quantity (level st)) →
    Order.remaining_quantity (order st') = 0 → Order.status (order st') = FILLED;
  lp_idle :
    Z.min (Order.remaining_quantity (order st)) (PriceLevel.total_quantity (level st)) = 0 →
    order st' = order st;
  lp_status :
    Order.remaining_quantity (order st') ≠ 0 →
    Order.status (order st') = Order.status (order st) ∨ Order.status (order st') = PARTIAL;
  lp_book_ok : book_ok (book st');
  lp_own :
    OrderBook.side_book (book st') (Order.side (order st))
    = OrderBook.side_book (book st) (Order.side (order st));
  lp_symbol : OrderBook.symbol (book st') = OrderBook.symbol (book st);
  lp_index : ∀ id o, OrderBook.orders (book st') !! id = Some o →
                     OrderBook.orders (book st) !! id = Some o;
  lp_contra_done :
    PriceLevel.total_quantity (level st) ≤ Order.remaining_quantity (order st) →
    contra (order st) (book st') = m';
  lp_contra_left :
    Order.remaining_quantity (order st) < PriceLevel.total_quantity (level st) →
    contra (order st) (book st') = (k, level st') :: m';
  lp_events : ∃ new,
    events st' = events st ++ new ∧
    log st' = log st ++ (ev_trade <$> new) ∧
    sum_quantity (ev_trade <$> new)
      = Z.min (Order.remaining_quantity (order st)) (PriceLevel.total_quantity (level st)) ∧
    Forall (event_ok (order st)) new ∧
    fifo_chain (order st) new ∧
    (PriceLevel.total_quantity (level st) ≤ Order.remaining_quantity (order st) →
     Forall (ev_exhausts (order st)) new) ∧
    (∀ ev, ev ∈ new → ev_exhausts (order st) ev →
       OrderBook.orders (book st') !! Trade.maker_order_id (ev_trade ev) = None)
}.

(** The quantity resting on the contra side at prices the order accepts:
    the levels from the best outward, up to the first one beyond the limit. *)
Fixpoint available (o : Order.t) (m : SortedDict.t PriceLevel.t) : Z :=
  match m with
  | [] => 0
  | (k, l) :: m' =>
      if beyond_limit o k then 0
      else PriceLevel.total_quantity l + available o m'
  end.

(** The outer loop on a well-formed book: the order takes the smaller of
    what it still wants and what is available inside its limit. *)
Record book_post (st st' : ostate) : Prop := {
  bp_order :
    o_order st' = filled_by (o_order st)
      (Z.min (Order.remaining_quantity (o_order st))
             (available (o_order st) (contra (o_order st) (o_book st))))
      (Order.status (o_order st'));
  bp_filled :
    0 < Z.min (Order.remaining_quantity (o_order st))
              (available (o_order st) (contra (o_order st) (o_book st))) →
    Order.remaining_quantity (o_order st') = 0 → Order.status (o_order st') = FILLED;
  bp_idle :
    Z.min (Order.remaining_quantity (o_order st))
          (available (o_order st) (contra (o_order st) (o_book st))) = 0 →
    o_order st' = o_order st;
  bp_status :
    Order.remaining_quantity (o_order st') ≠ 0 →
    Order.status (o_order st') = Order.status (o_order st) ∨
    Order.status (o_order st') = PARTIAL;
  bp_book_ok : book_ok (o_book st');
  bp_own :
    OrderBook.side_book (o_book st') (Order.side (o_order st))
    = OrderBook.side_book (o_book st) (Order.side (o_order st));
  bp_symbol : OrderBook.symbol (o_book st') = OrderBook.symbol (o_book st);
  bp_index : ∀ id o, OrderBook.orders (o_book st') !! id = Some o →
                     OrderBook.orders (o_book st) !! id = Some o;
  bp_residual :
    Order.remaining_quantity (o_order st') ≠ 0 →
    Forall (fun kl => beyond_limit (o_order st) kl.1 = true)
      (contra (o_order st) (o_book st'));
  bp_events : ∃ new,
    o_events st' = o_events st ++ new ∧
    o_log st' = o_log st ++ (ev_trade <$> new) ∧
    sum_quantity (ev_trade <$> new)
      = Z.min (Order.remaining_quantity (o_order st))
              (available (o_order st) (contra (o_order st) (o_book st))) ∧
    Forall (event_ok (o_order st)) new ∧
    fifo_chain (o_order st) new ∧
    (∀ ev, ev ∈ new → ev_exhausts (o_order st) ev →
       OrderBook.orders (o_book st') !! Trade.maker_order_id (ev_trade ev) = None)
}.

(** ** Reachable engines *)

(** An order as [Order(...)] builds it when the lifecycle fields are left
    to their defaults. *)
Definition new_order (o : Order.t) : Prop :=
  ∃ id sym ty sd q p, Order.new id sym ty sd q p = Ok o.

Definition engine_ok (e : MatchingEngine.t) : Prop :=
  ∀ sym b, order_books e !! sym = Some b → book_ok b.

(** The engines that calls of the public mutators produce from a fresh one. *)
Inductive reachable : MatchingEngine.t → Prop :=
  | reach_init : reachable MatchingEngine.init
  | reach_submit e o :
      reachable e → new_order o → reachable (submit_order e o).1.1
  | reach_cancel e symbol order_id :
      reachable e → reachable (cancel_order e symbol order_id).1.1.


(** The calls of the public interface. *)
Inductive call : Type :=
  | SubmitOrder (o : Order.t)
  | CancelOrder (symbol order_id : string)
  | GetBBO (symbol : string)
  | GetSnapshot (symbol : string) (depth : Z).

Definition after_call (e : MatchingEngine.t) (c : call) : MatchingEngine.t :=
  match c with
  | SubmitOrder o => (submit_order e o).1.1
  | CancelOrder symbol order_id => (cancel_order e symbol order_id).1.1
  | GetBBO _ | GetSnapshot _ _ => e
  end.

Definition after_calls (e : MatchingEngine.t) (cs : list call) : MatchingEngine.t :=
  foldl after_call e cs.

(** ** Sample inputs *)

Definition sample_sell : Order.t :=
  Order.mk "s1" "BTC-USDT" LIMIT SELL 1 (Some 50000) PENDING 0 1.
Definition sample_ioc : Order.t :=
  Order.mk "i1" "BTC-USDT" IOC BUY 2 (Some 50000) PENDING 0 2.

(** One sell order of 1 at 50000 rests in the book. *)
Definition sample_engine : MatchingEngine.t :=
  (submit_order MatchingEngine.init sample_sell).1.1.

Definition sample_level : PriceLevel.t := PriceLevel.mk 50000 [sample_sell] 1.
Definition sample_book : OrderBook.t :=
  OrderBook.mk "BTC-USDT" [] [(50000, sample_level)] {["s1" := sample_sell]}.


(** The resting SELL limit orders of the end-to-end scenarios. *)
Definition sell (id : string) (quantity price : Z) : Order.t :=
  Order.mk id "BTC-USDT" LIMIT SELL quantity (Some price) PENDING 0 quantity.

Definition buy (id : string) (ty : OrderType) (quantity price : Z) : Order.t :=
  Order.mk id "BTC-USDT" ty BUY quantity (Some price) PENDING 0 quantity.

Definition engine_with (os : list Order.t) : MatchingEngine.t :=
  after_calls MatchingEngine.init (SubmitOrder <$> os).

Definition book_of (e : MatchingEngine.t) : option OrderBook.t :=
  order_books e !! "BTC-USDT".

(** ** Reports and liquidity *)





(** ** Traces of the matching loops *)

(** Every key of a side of [b'] is a key of that side of [b], in the same
    order: levels were deleted from [b], none was added. *)
Definition keys_within (b b' : OrderBook.t) : Prop :=
  ∀ sd, (OrderBook.side_book b' sd).*1 `sublist_of` (OrderBook.side_book b sd).*1.

(** The books seen by successive trades, from [b] to [b'], only lose
    levels. *)
Fixpoint shrinking (b : OrderBook.t) (evs : list event) (b' : OrderBook.t) : Prop :=
  match evs with
  | [] => keys_within b b'
  | ev :: evs' => keys_within b (ev_book ev) ∧ shrinking (ev_book ev) evs' b'
  end.

(** An order that received a fill. *)
Definition touched (o : Order.t) : Prop :=
  0 < Order.filled_quantity o ∧
  Order.status o = if Order.remaining_quantity o =? 0 then FILLED else PARTIAL.


(** * Proofs *)

(** ** Facts about the sorted dictionary *)

Section SortedDict_facts.
Context {V : Type}.
Implicit Types (m : SortedDict.t V) (k : Z) (v : V).

Lemma sd_keys_replace k v m : (SortedDict.replace k v m).*1 = m.*1.
Proof.
  induction m as [|[k' v'] m IH]; simpl; [done|].
  destruct (k' =? k); simpl; [done|]. by f_equal.
Qed.

Lemma sd_keys_delete_sublist k m : (SortedDict.delete k m).*1 `sublist_of` m.*1.
Proof.
  induction m as [|[k' v'] m IH]; simpl; [constructor|].
  destruct (k' =? k); simpl.
  - by apply sublist_cons.
  - by apply sublist_skip.
Qed.

Lemma sd_lookup_Some_elem k v m : SortedDict.lookup k m = Some v → k ∈ m.*1.
Proof.
  induction m as [|[k' v'] m IH]; simpl; [done|].
  destruct (Z.eqb_spec k' k) as [->|]; intros; [left | right; auto].
Qed.

Lemma sd_lookup_None k m : SortedDict.lookup k m = None ↔ k ∉ m.*1.
Proof.
  induction m as [|[k' v'] m IH]; simpl.
  - split; [intros _; apply not_elem_of_nil | done].
  - rewrite not_elem_of_cons.
    destruct (Z.eqb_spec k' k) as [->|Hne].
    + split; [done|]. intros [? _]. done.
    + rewrite IH. split; [intros ?; split; [by intros ->|done]|by intros [_ ?]].
Qed.

Lemma sd_length_delete k m :
  is_Some (SortedDict.lookup k m) →
  S (length (SortedDict.delete k m)) = length m.
Proof.
  induction m as [|[k' v'] m IH]; simpl; [by intros [? ?]|].
  destruct (k' =? k); simpl; [done|]. intros H. by rewrite IH.
Qed.

End SortedDict_facts.

Lemma sublist_length_lt {A} (l1 l2 : list A) (x : A) :
  l1 `sublist_of` l2 → x ∈ l2 → x ∉ l1 → (length l1 < length l2)%nat.
Proof.
  induction 1 as [|y l1 l2 Hsub IH|y l1 l2 Hsub IH]; simpl.
  - by intros ?%elem_of_nil.
  - rewrite elem_of_cons, not_elem_of_cons. intros [->|?] [? ?]; [done|].
    apply IH in H; [lia|done].
  - intros _ _. apply sublist_length in Hsub. lia.
Qed.

(** ** Orders and the two sides of a book *)

Lemma order_fill_Ok o q o' :
  Order.fill o q = Ok o' →
  0 < q ∧ q ≤ Order.remaining_quantity o ∧
  o' = Order.mk (Order.order_id o) (Order.symbol o) (Order.order_type o)
         (Order.side o) (Order.quantity o) (Order.price o)
         (if Order.remaining_quantity o - q =? 0 then FILLED
          else if 0 <? Order.filled_quantity o + q then PARTIAL
          else Order.status o)
         (Order.filled_quantity o + q) (Order.remaining_quantity o - q).
Proof.
  unfold Order.fill. destruct (Z.leb_spec q 0); [done|].
  destruct (Z.ltb_spec (Order.remaining_quantity o) q); [done|].
  intros [= <-]. done.
Qed.

Lemma side_book_set_same b sd m :
  OrderBook.side_book (OrderBook.set_side_book b sd m) sd = m.
Proof. by destruct sd. Qed.

Lemma side_book_set_orders b idx sd :
  OrderBook.side_book (OrderBook.set_orders b idx) sd = OrderBook.side_book b sd.
Proof. by destruct sd. Qed.

Lemma side_book_set_keys b sd sd' m :
  m.*1 `sublist_of` (OrderBook.side_book b sd).*1 →
  (OrderBook.side_book (OrderBook.set_side_book b sd m) sd').*1
    `sublist_of` (OrderBook.side_book b sd').*1.
Proof. destruct sd, sd'; simpl; done. Qed.

Lemma update_order_quantity_keys b r f sd :
  (OrderBook.side_book (OrderBook.update_order_quantity b r f) sd).*1
    `sublist_of` (OrderBook.side_book b sd).*1.
Proof.
  unfold OrderBook.update_order_quantity.
  destruct (Order.price r) as [p|]; [|done].
  destruct (SortedDict.lookup p _) as [l|]; [|done].
  destruct (PriceLevel.is_empty _); apply side_book_set_keys.
  - apply sd_keys_delete_sublist.
  - by rewrite sd_keys_replace.
Qed.

Lemma store_level_keys o att k l b sd :
  (OrderBook.side_book (store_level o att k l b) sd).*1
  = (OrderBook.side_book b sd).*1.
Proof.
  unfold store_level, set_contra, contra. destruct att; [|done].
  destruct (Order.side o), sd; simpl; by rewrite ?sd_keys_replace.
Qed.

(** ** The loops of [_match_order] terminate *)

Lemma match_level_general fuel k st st' out :
  match_level fuel k st = (st', out) →
  (length (PriceLevel.orders (level st)) < fuel)%nat →
  out ≠ OutOfFuel ∧ Order.side (order st') = Order.side (order st) ∧
  (∀ sd, (OrderBook.side_book (book st') sd).*1
           `sublist_of` (OrderBook.side_book (book st) sd).*1) ∧
  (out = Completed →
     Order.remaining_quantity (order st') ≤ 0 ∨ PriceLevel.orders (level st') = []).
Proof.
  revert st. induction fuel as [|fuel IH]; intros st; [simpl; lia|].
  simpl. destruct (Z.ltb_spec 0 (Order.remaining_quantity (order st))) as [Hpos|Hle];
    [|intros [= <- <-] _; split_and!; [done|done|done|intros _; by left]].
  destruct (PriceLevel.orders (level st)) as [|r rest] eqn:Hq;
    [intros [= <- <-] _; split_and!; [done|done|done|intros _; by right]|].
  destruct (Order.fill (order st) _) as [o1|e] eqn:Hf1;
    [|intros [= <- <-] _; split_and!; done].
  apply order_fill_Ok in Hf1 as (Hfpos & Hfle & Ho1).
  destruct (Order.fill r _) as [r1|e] eqn:Hf2;
    [|intros [= <- <-] _; split_and!; [done|by rewrite Ho1|done|done]].
  apply order_fill_Ok in Hf2 as (_ & _ & Hr1).
  set (f := Z.min _ _) in *.
  destruct (if attached st then _ else _) as [l2 att2] eqn:Hl2.
  destruct (if Order.remaining_quantity r1 =? 0 then _ else _) as [l3 b3] eqn:Hl3.
  intros Hrec Hfuel. simpl in Hfuel.
  assert (Hkeys : ∀ sd, (OrderBook.side_book b3 sd).*1
            `sublist_of` (OrderBook.side_book (book st) sd).*1).
  { intros sd. destruct (Order.remaining_quantity r1 =? 0); simplify_eq.
    - rewrite side_book_set_orders, store_level_keys.
      etrans; [apply update_order_quantity_keys|]. by rewrite store_level_keys.
    - etrans; [apply update_order_quantity_keys|]. by rewrite store_level_keys. }
  destruct (Z.eqb_spec (Order.remaining_quantity r1) 0) as [Hz|Hnz].
  - (* the resting order was popped *)
    injection Hl3 as <- <-.
    apply IH in Hrec; simpl in *; [|lia].
    destruct Hrec as (? & Hs & Hk & ?). split_and!; [done| |..|done].
    + by rewrite Hs, Ho1.
    + intros sd. etrans; [apply Hk|]. apply Hkeys.
  - (* the aggressor is exhausted *)
    injection Hl3 as <- <-.
    assert (Order.remaining_quantity o1 = 0) as Ho1z.
    { rewrite Ho1. simpl. rewrite Hr1 in Hnz. simpl in Hnz. lia. }
    destruct fuel as [|fuel]; [lia|]. simpl in Hrec.
    rewrite Ho1z in Hrec. simpl in Hrec. injection Hrec as <- <-.
    simpl. split_and!; [done|by rewrite Ho1|done|intros _; left; lia].
Qed.

Lemma contra_set_contra o o' b m :
  Order.side o = Order.side o' → contra o (set_contra o' b m) = m.
Proof. unfold contra, set_contra. intros ->. apply side_book_set_same. Qed.

Lemma match_book_general fuel st st' out :
  match_book fuel st = (st', out) →
  (length (contra (o_order st) (o_book st)) < fuel)%nat →
  out ≠ OutOfFuel.
Proof.
  revert st. induction fuel as [|fuel IH]; intros st; [simpl; lia|].
  cbn [match_book].
  destruct (Z.ltb_spec 0 (Order.remaining_quantity (o_order st))) as [Hpos|Hle];
    [|by intros [= <- <-] _].
  destruct (SortedDict.first_key _) as [k|] eqn:Hk; [|by intros [= <- <-] _].
  destruct (beyond_limit _ _); [by intros [= <- <-] _|].
  destruct (SortedDict.lookup k _) as [pl|] eqn:Hpl; [|by intros [= <- <-] _].
  destruct (match_level _ k _) as [m outi] eqn:Hm.
  apply match_level_general in Hm as (Hout & Hside & Hkeys & Hdone); simpl in *; [|lia].
  destruct outi; [|by intros [= <- <-] _|done].
  intros Hrec Hfuel.
  destruct (Hdone eq_refl) as [Hrem|Hnil].
  - (* the aggressor is exhausted: the next test of the loop fails *)
    destruct fuel as [|fuel].
    { apply sd_lookup_Some_elem in Hpl.
      destruct (contra (o_order st) (o_book st)); [by apply elem_of_nil in Hpl|].
      simpl in Hfuel. lia. }
    simpl in Hrec. destruct (Z.ltb_spec 0 (Order.remaining_quantity (order m))); [lia|].
    by injection Hrec as <- <-.
  - (* the held level is empty: one key fewer in the contra side *)
    apply IH in Hrec; [done|]. simpl.
    assert (contra (order m) = contra (o_order st)) as Hc.
    { unfold contra. by rewrite Hside. }
    unfold PriceLevel.is_empty. rewrite Hnil. simpl.
    rewrite andb_true_r.
    specialize (Hkeys (opposite (Order.side (o_order st)))).
    fold (contra (o_order st) (book m)) in Hkeys.
    fold (contra (o_order st) (o_book st)) in Hkeys.
    case_bool_decide as Hin.
    + rewrite contra_set_contra by done.
      apply sd_length_delete in Hin.
      apply sublist_length in Hkeys. rewrite !length_fmap in Hkeys. lia.
    + rewrite ?Hc.
      assert (k ∉ (contra (o_order st) (book m)).*1) as Hnot.
      { apply sd_lookup_None. destruct (SortedDict.lookup k (contra _ (book m))); [|done].
        destruct Hin; eauto. }
      apply sd_lookup_Some_elem in Hpl.
      pose proof (sublist_length_lt _ _ _ Hkeys Hpl Hnot) as Hlt.
      rewrite !length_fmap in Hlt. lia.
Qed.

Lemma match_order_terminates lg o b : (_match_order lg o b).2 ≠ OutOfFuel.
Proof.
  unfold _match_order. destruct (match_book _ _) as [st out] eqn:H.
  apply match_book_general in H; [done|]. simpl. lia.
Qed.

Lemma process_terminates lg o b : p_outcome (process lg o b) ≠ OutOfFuel.
Proof.
  pose proof (match_order_terminates lg o b) as H.
  unfold process, _process_market_order, _process_limit_order,
    _process_ioc_order, _process_fok_order.
  destruct (Order.order_type o);
    try (destruct (negb _); [done|]);
    destruct (_match_order lg o b) as [st out]; simpl in *;
    destruct out; try done;
    repeat (first [ destruct (0 <? _) | destruct (OrderBook.add_order _ _) ]; simpl; try done).
Qed.

Lemma submit_order_returns e o : (submit_order e o).2 ≠ Diverged.
Proof.
  unfold submit_order. destruct (get_or_create_order_book _ _) as [e1 b].
  pose proof (process_terminates (trades e1) o b) as H.
  destruct (p_outcome _); done.
Qed.

(** ** One iteration of the inner loop on a well-formed book *)

Lemma order_fill_eq o q :
  0 < q → q ≤ Order.remaining_quantity o →
  Order.fill o q = Ok (filled_by o q (fill_status o q)).
Proof.
  intros. unfold Order.fill. destruct (Z.leb_spec q 0); [lia|].
  destruct (Z.ltb_spec (Order.remaining_quantity o) q); [lia|]. done.
Qed.

Lemma set_side_book_twice b sd m1 m2 :
  OrderBook.set_side_book (OrderBook.set_side_book b sd m1) sd m2
  = OrderBook.set_side_book b sd m2.
Proof. by destruct sd. Qed.

Lemma sd_lookup_head {V} k (v : V) m : SortedDict.lookup k ((k, v) :: m) = Some v.
Proof. simpl. by rewrite Z.eqb_refl. Qed.

Lemma sd_replace_head {V} k (v v' : V) m :
  SortedDict.replace k v' ((k, v) :: m) = (k, v') :: m.
Proof. simpl. by rewrite Z.eqb_refl. Qed.

Lemma sd_delete_head {V} k (v : V) m : SortedDict.delete k ((k, v) :: m) = m.
Proof. simpl. by rewrite Z.eqb_refl. Qed.

Lemma update_order_quantity_head b r f k l m' :
  Order.price r = Some k →
  OrderBook.side_book b (Order.side r) = (k, l) :: m' →
  OrderBook.update_order_quantity b r f
  = OrderBook.set_side_book b (Order.side r)
      (if PriceLevel.is_empty (PriceLevel.update_quantity l (- f)) then m'
       else (k, PriceLevel.update_quantity l (- f)) :: m').
Proof.
  intros Hp Hb. unfold OrderBook.update_order_quantity.
  rewrite Hp, Hb, sd_lookup_head, sd_delete_head, sd_replace_head.
  by destruct (PriceLevel.is_empty _).
Qed.

Lemma store_level_head o k l l1 m' b :
  contra o b = (k, l) :: m' →
  store_level o true k l1 b = set_contra o b ((k, l1) :: m').
Proof. intros Hc. unfold store_level. by rewrite Hc, sd_replace_head. Qed.

Lemma contra_set_side_book o b m :
  contra o (OrderBook.set_side_book b (opposite (Order.side o)) m) = m.
Proof. apply side_book_set_same. Qed.

Lemma own_set_side_book o b m :
  OrderBook.side_book (OrderBook.set_side_book b (opposite (Order.side o)) m) (Order.side o)
  = OrderBook.side_book b (Order.side o).
Proof. by destruct (Order.side o). Qed.

Lemma match_level_step fuel k st r rest m' :
  let o := order st in
  let b := book st in
  let l := level st in
  let f := Z.min (Order.remaining_quantity o) (Order.remaining_quantity r) in
  let r1 := filled_by r f (fill_status r f) in
  let o1 := filled_by o f (fill_status o f) in
  let t := Trade.mk (Order.symbol o) k f (Order.side o) (Order.order_id r) (Order.order_id o) in
  attached st = true →
  contra o b = (k, l) :: m' →
  SortedDict.lookup k m' = None →
  PriceLevel.orders l = r :: rest →
  Order.side r = opposite (Order.side o) →
  Order.price r = Some k →
  0 < Order.remaining_quantity r →
  0 < Order.remaining_quantity o →
  PriceLevel.total_quantity l = Order.remaining_quantity r + sum_remaining rest →
  (rest ≠ [] → 0 < sum_remaining rest) →
  (rest = [] → sum_remaining rest = 0) →
  ∃ b3 l3 att,
    match_level (S fuel) k st
    = match_level fuel k
        (mk_mstate o1 b3 l3 att (events st ++ [mk_event b t]) (log st ++ [t])) ∧
    OrderBook.side_book b3 (Order.side o) = OrderBook.side_book b (Order.side o) ∧
    OrderBook.symbol b3 = OrderBook.symbol b ∧
    OrderBook.orders b3 =
      (if decide (Order.remaining_quantity r ≤ Order.remaining_quantity o)
       then delete (Order.order_id r) (OrderBook.orders b)
       else OrderBook.orders b) ∧
    (if decide (Order.remaining_quantity o < Order.remaining_quantity r)
     then att = true ∧
          l3 = PriceLevel.mk (PriceLevel.price l) (r1 :: rest)
                 (PriceLevel.total_quantity l - f) ∧
          contra o b3 = (k, l3) :: m'
     else if decide (rest = [])
     then att = false ∧ PriceLevel.orders l3 = [] ∧ contra o b3 = m'
     else att = true ∧
          l3 = PriceLevel.mk (PriceLevel.price l) rest
                 (PriceLevel.total_quantity l - f) ∧
          contra o b3 = (k, l3) :: m').
Proof.
  intros o b l f r1 o1 t Hatt Hc Hk Hq Hside Hprice Hr Ho Htot Hrest Hnil.
  assert (0 < f ∧ f ≤ Order.remaining_quantity o ∧ f ≤ Order.remaining_quantity r)
    as (Hf & Hfo & Hfr) by (unfold f; lia).
  assert (0 ≤ sum_remaining rest) as Hsum.
  { destruct (decide (rest = [])) as [->|Hne]; [done|]. apply Hrest in Hne. lia. }
  assert (f = Order.remaining_quantity o ∨ f = Order.remaining_quantity r)
    as Hfeq by (unfold f; lia).
  cbn [match_level]. fold o b l.
  destruct (Z.ltb_spec 0 (Order.remaining_quantity o)); [|lia].
  rewrite Hq. fold f.
  rewrite (order_fill_eq o f), (order_fill_eq r f) by done.
  fold r1 o1 t. rewrite Hatt.
  rewrite (store_level_head _ _ _ _ _ _ Hc). unfold set_contra.
  assert (Order.side r1 = opposite (Order.side o)) as Hside1 by done.
  rewrite (update_order_quantity_head _ r1 f k (PriceLevel.set_orders l (r1 :: rest)) m');
    [|done|by rewrite Hside1, side_book_set_same].
  rewrite Hside1, set_side_book_twice.
  unfold PriceLevel.is_empty. cbn [PriceLevel.update_quantity PriceLevel.set_orders
    PriceLevel.orders PriceLevel.total_quantity PriceLevel.price length].
  rewrite bool_decide_eq_false_2 by done. cbn [orb].
  change (Order.remaining_quantity r1) with (Order.remaining_quantity r - f).
  change (Order.order_id r1) with (Order.order_id r).
  destruct (decide (Order.remaining_quantity o < Order.remaining_quantity r)) as [Hlt|Hge].
  - (* the resting order is filled in part *)
    destruct (Z.eqb_spec (PriceLevel.total_quantity l + - f) 0) as [|_]; [lia|].
    rewrite contra_set_side_book, sd_lookup_head.
    destruct (Z.eqb_spec (Order.remaining_quantity r - f) 0) as [|_]; [lia|].
    eexists _, _, _. split; [reflexivity|].
    rewrite decide_False by lia.
    rewrite own_set_side_book, contra_set_side_book.
    split_and!; [done|by destruct (Order.side o)|by destruct (Order.side o)|done| |done].
    f_equal; lia.
  - destruct (Z.eqb_spec (Order.remaining_quantity r - f) 0) as [_|]; [|lia].
    rewrite decide_True by lia.
    destruct (decide (rest = [])) as [->|Hne].
    + (* the last order of the level is consumed *)
      specialize (Hnil eq_refl).
      destruct (Z.eqb_spec (PriceLevel.total_quantity l + - f) 0) as [_|]; [|lia].
      rewrite contra_set_side_book, Hk. unfold store_level.
      eexists _, _, _. split; [reflexivity|].
      unfold contra. rewrite !side_book_set_orders, own_set_side_book, side_book_set_same.
      split_and!; [done|by destruct (Order.side o)|by destruct (Order.side o)|done..].
    + (* the head is consumed and the level lives on *)
      specialize (Hrest Hne).
      destruct (Z.eqb_spec (PriceLevel.total_quantity l + - f) 0) as [|_]; [lia|].
      rewrite contra_set_side_book, sd_lookup_head.
      erewrite store_level_head by apply contra_set_side_book.
      unfold set_contra. rewrite set_side_book_twice.
      eexists _, _, _. split; [reflexivity|].
      unfold contra. rewrite !side_book_set_orders, own_set_side_book, side_book_set_same.
      split_and!; [done|by destruct (Order.side o)|by destruct (Order.side o)|done| |done].
      f_equal; lia.
Qed.

(** ** Changing one level keeps a book well-formed *)

Lemma sum_remaining_pos sd p q :
  Forall (resting_ok sd p) q → q ≠ [] → 0 < sum_remaining q.
Proof.
  induction 1 as [|o q Ho Hq IH]; [done|]. intros _. simpl.
  destruct Ho. destruct (decide (q = [])) as [->|Hne]; [simpl; lia|].
  specialize (IH Hne). lia.
Qed.

Lemma side_sorted_lookup_tail sd k l m :
  side_sorted sd ((k, l) :: m) → SortedDict.lookup k m = None.
Proof.
  intros [Hall _]%StronglySorted_cons. apply sd_lookup_None.
  intros ((k' & l') & Hk & Hin)%list_elem_of_fmap. simpl in *. subst.
  rewrite Forall_forall in Hall. apply Hall in Hin. simpl in Hin. lia.
Qed.

Lemma side_sorted_app_lookup sd pre k l post p :
  side_sorted sd (pre ++ (k, l) :: post) → p ≠ k →
  SortedDict.lookup p (pre ++ (k, l) :: post) = SortedDict.lookup p (pre ++ post).
Proof.
  intros _ Hne. induction pre as [|[k' l'] pre IH]; simpl.
  - destruct (Z.eqb_spec k p); [congruence|done].
  - by rewrite IH.
Qed.

Lemma sd_lookup_app_mid sd pre k l post :
  side_sorted sd (pre ++ (k, l) :: post) →
  SortedDict.lookup k (pre ++ (k, l) :: post) = Some l.
Proof.
  induction pre as [|[k' l'] pre IH]; simpl; intros Hs.
  - by rewrite Z.eqb_refl.
  - apply StronglySorted_cons in Hs as [Hall Hs].
    destruct (Z.eqb_spec k' k) as [->|]; [|by apply IH].
    rewrite Forall_forall in Hall.
    assert ((k, l) ∈ pre ++ (k, l) :: post) as Hin by set_solver.
    apply Hall in Hin. simpl in Hin. lia.
Qed.

Lemma sd_lookup_app_mid_any sd pre k l l' post p :
  side_sorted sd (pre ++ (k, l) :: post) →
  SortedDict.lookup p (pre ++ (k, l') :: post)
  = if decide (p = k) then Some l' else SortedDict.lookup p (pre ++ (k, l) :: post).
Proof.
  induction pre as [|[k0 l0] pre IH]; simpl; intros Hs.
  - destruct (Z.eqb_spec k p); case_decide; congruence.
  - apply StronglySorted_cons in Hs as [Hall Hs].
    destruct (Z.eqb_spec k0 p) as [->|]; [|by apply IH].
    case_decide; [|done]. subst.
    rewrite Forall_forall in Hall.
    assert ((k, l) ∈ pre ++ (k, l) :: post) as Hin by set_solver.
    apply Hall in Hin. simpl in Hin. lia.
Qed.

Lemma side_sorted_delete_mid sd (pre : SortedDict.t PriceLevel.t) x post :
  side_sorted sd (pre ++ x :: post) → side_sorted sd (pre ++ post).
Proof.
  unfold side_sorted. rewrite !StronglySorted_app, StronglySorted_cons.
  intros (H1 & H2 & H3 & H4). split_and!; [|done..].
  intros x1 x2 ? ?. apply H1; [done|]. by right.
Qed.

Lemma side_sorted_replace_mid sd (pre : SortedDict.t PriceLevel.t) k l l' post :
  side_sorted sd (pre ++ (k, l) :: post) → side_sorted sd (pre ++ (k, l') :: post).
Proof.
  unfold side_sorted. rewrite !StronglySorted_app, !StronglySorted_cons.
  intros (H1 & H2 & H3 & H4). split_and!; [|done..].
  intros x1 x2 Hx1 [->|Hx2]%elem_of_cons.
  - apply (H1 x1 (k, l)); [done|by left].
  - apply H1; [done|by right].
Qed.

Lemma sd_lookup_delete_mid sd (pre : SortedDict.t PriceLevel.t) k l post p :
  side_sorted sd (pre ++ (k, l) :: post) →
  SortedDict.lookup p (pre ++ post)
  = if decide (p = k) then None else SortedDict.lookup p (pre ++ (k, l) :: post).
Proof.
  intros Hs. case_decide as Hp.
  - subst. apply sd_lookup_None. intros Hin.
    unfold side_sorted in Hs. rewrite StronglySorted_app, StronglySorted_cons in Hs.
    destruct Hs as (H1 & H2 & H3 & H4).
    rewrite fmap_app in Hin. apply elem_of_app in Hin as [Hin|Hin].
    + apply list_elem_of_fmap in Hin as ([k' l'] & -> & Hin).
      assert ((k', l) ∈ (k', l) :: post) as Hin' by (by left).
      specialize (H1 (k', l') (k', l) Hin Hin'). simpl in H1. lia.
    + apply list_elem_of_fmap in Hin as ([k' l'] & -> & Hin).
      rewrite Forall_forall in H3. apply H3 in Hin. simpl in Hin. lia.
  - symmetry. by eapply side_sorted_app_lookup.
Qed.

Lemma book_ok_change_level b b' c pre k l post mnew :
  book_ok b →
  OrderBook.side_book b c = pre ++ (k, l) :: post →
  OrderBook.side_book b' (opposite c) = OrderBook.side_book b (opposite c) →
  OrderBook.side_book b' c = mnew →
  (∀ id o, OrderBook.orders b' !! id = Some o → OrderBook.orders b !! id = Some o) →
  ((mnew = pre ++ post ∧
    ∀ r, r ∈ PriceLevel.orders l → OrderBook.orders b' !! Order.order_id r = None) ∨
   (∃ l', mnew = pre ++ (k, l') :: post ∧ level_ok c (k, l') ∧
      ∀ r, r ∈ PriceLevel.orders l →
        OrderBook.orders b' !! Order.order_id r = None ∨
        ∃ r', r' ∈ PriceLevel.orders l' ∧ Order.order_id r' = Order.order_id r)) →
  book_ok b'.
Proof.
  intros [Hlv Hso Hun Hix] Hc Hown Hnew Hsub Hcase.
  assert (∀ sd, sd = c ∨ sd = opposite c) as Hsd by (intros [|]; destruct c; auto).
  assert ((mnew.*1 ⊆ (OrderBook.side_book b c).*1)) as Hkeys.
  { rewrite Hc. intros x. destruct Hcase as [[-> _]|(l' & -> & _)];
      rewrite !fmap_app, ?fmap_cons; simpl;
      rewrite !elem_of_app, ?elem_of_cons; tauto. }
  split.
  - intros sd. destruct (Hsd sd) as [->| ->]; [|by rewrite Hown].
    rewrite Hnew. specialize (Hlv c). rewrite Hc in Hlv.
    apply Forall_app in Hlv as [Hpre [Hl Hpost]%Forall_cons].
    destruct Hcase as [[-> _]|(l' & -> & Hl' & _)].
    + by apply Forall_app.
    + apply Forall_app. split; [done|]. by apply Forall_cons.
  - intros sd. destruct (Hsd sd) as [->| ->]; [|by rewrite Hown].
    rewrite Hnew. specialize (Hso c). rewrite Hc in Hso.
    destruct Hcase as [[-> _]|(l' & -> & _)].
    + by eapply side_sorted_delete_mid.
    + by eapply side_sorted_replace_mid.
  - intros kb ka Hkb Hka. apply Hun.
    + destruct c; simpl in *; [apply Hkeys; by rewrite <- Hnew|by rewrite <- Hown].
    + destruct c; simpl in *; [by rewrite <- Hown|apply Hkeys; by rewrite <- Hnew].
  - intros id o Hid. pose proof (Hsub _ _ Hid) as Hid0.
    destruct (Hix _ _ Hid0) as (p & l0 & r & Hp & Hl0 & Hr & Hrid).
    destruct (Hsd (Order.side o)) as [Hs|Hs]; rewrite Hs in *;
      [|exists p, l0, r; by rewrite Hown].
    specialize (Hso c). rewrite Hc in Hl0, Hso.
    destruct (decide (p = k)) as [->|Hpk].
    + rewrite (sd_lookup_app_mid _ _ _ _ _ Hso) in Hl0. injection Hl0 as <-.
      destruct Hcase as [[-> Hgone]|(l' & -> & _ & Hkept)].
      * apply Hgone in Hr. rewrite Hrid in Hr. congruence.
      * destruct (Hkept _ Hr) as [Hnone|(r' & Hr' & Hid')];
          [rewrite Hrid in Hnone; congruence|].
        exists k, l', r'. rewrite Hnew.
        rewrite (sd_lookup_app_mid_any _ _ _ _ _ _ _ Hso), decide_True by done.
        split_and!; [done..|congruence].
    + exists p, l0, r. rewrite Hnew.
      destruct Hcase as [[-> _]|(l' & -> & _)].
      * rewrite (sd_lookup_delete_mid _ _ _ _ _ _ Hso), decide_False by done. done.
      * rewrite (sd_lookup_app_mid_any _ _ _ _ _ _ _ Hso), decide_False by done. done.
Qed.

(** ** The inner loop *)

Lemma filled_by_zero o : filled_by o 0 (Order.status o) = o.
Proof. destruct o. unfold filled_by. simpl. f_equal; lia. Qed.

Lemma level_ok_head_facts sd k l :
  level_ok sd (k, l) →
  ∃ r rest, PriceLevel.orders l = r :: rest ∧ resting_ok sd k r ∧
    Forall (resting_ok sd k) rest ∧
    PriceLevel.total_quantity l = Order.remaining_quantity r + sum_remaining rest ∧
    0 ≤ sum_remaining rest ∧
    (rest ≠ [] → 0 < sum_remaining rest) ∧ PriceLevel.price l = k.
Proof.
  intros [Hp Hk Hne Hall Htot]. simpl in *.
  destruct (PriceLevel.orders l) as [|r rest]; [done|].
  apply Forall_cons in Hall as [Hr Hrest]. exists r, rest.
  split_and!; [done..| |by eapply sum_remaining_pos|done].
  destruct (decide (rest = [])) as [->|Hn]; [done|].
  pose proof (sum_remaining_pos _ _ _ Hrest Hn). lia.
Qed.

Lemma fill_status_filled o f :
  Order.remaining_quantity o - f = 0 → fill_status o f = FILLED.
Proof. intros E. unfold fill_status. by rewrite E. Qed.

Lemma fill_status_live o f :
  Order.remaining_quantity o - f ≠ 0 →
  fill_status o f = Order.status o ∨ fill_status o f = PARTIAL.
Proof.
  intros E. unfold fill_status. destruct (Z.eqb_spec (Order.remaining_quantity o - f) 0); [done|].
  destruct (0 <? _); auto.
Qed.

Lemma event_ok_filled_by o f s ev : event_ok (filled_by o f s) ev → event_ok o ev.
Proof. intros [? ? ? ? ? ? ?]. split; done. Qed.

Lemma fifo_chain_filled_by o f s evs : fifo_chain (filled_by o f s) evs → fifo_chain o evs.
Proof. induction evs as [|ev evs IH]; simpl; [done|]. intros [? ?]. split; auto. Qed.

Lemma fifo_chain_app o evs1 evs2 :
  Forall (ev_exhausts o) evs1 → fifo_chain o evs2 → fifo_chain o (evs1 ++ evs2).
Proof.
  induction 1 as [|ev evs1 Hev Hall IH]; simpl; [done|]. intros H. split; auto.
Qed.

Lemma opposite_involutive sd : opposite (opposite sd) = sd.
Proof. by destruct sd. Qed.

Lemma match_level_ok fuel k m' st :
  book_ok (book st) →
  attached st = true →
  contra (order st) (book st) = (k, level st) :: m' →
  0 ≤ Order.remaining_quantity (order st) →
  beyond_limit (order st) k = false →
  (length (PriceLevel.orders (level st)) < fuel)%nat →
  ∃ st', match_level fuel k st = (st', Completed) ∧ level_post k m' st st'.
Proof.
  revert st. induction fuel as [|fuel IH]; intros st Hok Hatt Hc Hrem Hlim Hfuel; [lia|].
  pose proof (ok_levels _ Hok (opposite (Order.side (order st)))) as Hlv.
  fold (contra (order st) (book st)) in Hlv. rewrite Hc in Hlv.
  apply Forall_cons in Hlv as [Hl Hm'].
  destruct (level_ok_head_facts _ _ _ Hl)
    as (r & rest & Hq & Hr & Hrest & Htot & Hsum & Hsumpos & Hprice).
  destruct Hr as [Hrs Hrp Hrr Hrt Hrst].
  destruct (decide (Order.remaining_quantity (order st) = 0)) as [Hz|Hnz].
  { (* nothing left to fill *)
    exists st. cbn [match_level]. rewrite Hz. cbn. split; [done|].
    assert (Z.min 0 (PriceLevel.total_quantity (level st)) = 0) as Hmin by lia.
    split; rewrite ?Hz, ?Hmin; try done.
    - by rewrite filled_by_zero.
    - lia.
    - exists []. rewrite !app_nil_r. split_and!; try done.
    intros ev Hin. by apply elem_of_nil in Hin. }
  pose proof (ok_sorted _ Hok (opposite (Order.side (order st)))) as Hso.
  fold (contra (order st) (book st)) in Hso. rewrite Hc in Hso.
  pose proof (side_sorted_lookup_tail _ _ _ _ Hso) as Hk.
  destruct (match_level_step fuel k st r rest m')
    as (b3 & l3 & att & Hstep & Hown & Hsym & Hidx & Hcase);
    [done..|lia|done|done|by intros ->|].
  rewrite Hstep. clear Hstep.
  set (o := order st) in *. set (b := book st) in *. set (l := level st) in *.
  set (f := Z.min (Order.remaining_quantity o) (Order.remaining_quantity r)) in *.
  set (t := Trade.mk _ _ _ _ _ _) in *.
  set (o1 := filled_by o f (fill_status o f)) in *.
  set (r1 := filled_by r f (fill_status r f)) in *.
  assert (0 < f ∧ f ≤ Order.remaining_quantity o ∧ f ≤ Order.remaining_quantity r)
    as (Hf & Hfo & Hfr) by (unfold f; lia).
  assert (Order.remaining_quantity r ≤ Order.remaining_quantity o →
          ev_exhausts o (mk_event b t)) as Hex.
  { intros Hle. exists l, r, rest, m'. simpl. split_and!; [done..|lia]. }
  assert (ev_exhausts o (mk_event b t) →
          Order.remaining_quantity r ≤ Order.remaining_quantity o) as Hex'.
  { intros (l0 & r0 & rest0 & m0 & Hc0 & Hq0 & _ & Hf0). simpl in *.
    rewrite Hc in Hc0. injection Hc0 as <- <-. rewrite Hq in Hq0. injection Hq0 as <- <-.
    lia. }
  assert (event_ok o (mk_event b t)) as Hev.
  { split; simpl; try done. exists l, r, rest, m'. simpl. split_and!; [done..|lia]. }
  assert (∀ id o', OrderBook.orders b3 !! id = Some o' → OrderBook.orders b !! id = Some o')
    as Hsub.
  { intros id o'. rewrite Hidx.
    destruct (decide (Order.remaining_quantity r ≤ Order.remaining_quantity o)); [|done].
    intros [_ ?]%lookup_delete_Some. done. }
  assert (book_ok b3) as Hok3.
  { eapply (book_ok_change_level b b3 (opposite (Order.side o)) [] k l m');
      [done|exact Hc|by rewrite opposite_involutive|reflexivity|done|].
    fold (contra o b3). simpl.
    destruct (decide (Order.remaining_quantity o < Order.remaining_quantity r)).
    - destruct Hcase as (_ & -> & ->). right. eexists. split; [done|]. split.
      + split; simpl; [done|by destruct Hl|done| |lia].
        apply Forall_cons. split; [|done].
        split; simpl; [done|done|lia|done|].
        unfold fill_status. destruct (_ =? 0) eqn:E; [lia|].
        destruct (0 <? _); [by right|done].
      + intros r0. fold l. rewrite Hq. intros [->|?]%elem_of_cons; right.
        * exists r1. split; [by left|done].
        * exists r0. split; [by right|done].
    - rewrite decide_True in Hidx by lia.
      destruct (decide (rest = [])) as [->|Hne].
      + destruct Hcase as (_ & _ & ->). left. split; [done|].
        intros r0. fold l. rewrite Hq. intros ->%list_elem_of_singleton.
        rewrite Hidx. apply lookup_delete_eq.
      + destruct Hcase as (_ & -> & ->). right. eexists. split; [done|]. split.
        * split; simpl; [done|by destruct Hl|done|done|lia].
        * intros r0. fold l. rewrite Hq. intros [->|?]%elem_of_cons.
          -- left. rewrite Hidx. apply lookup_delete_eq.
          -- right. eauto. }
  destruct (decide (Order.remaining_quantity o < Order.remaining_quantity r)) as [Hlt|Hge].
  - (* the aggressor is exhausted on the head of the queue *)
    destruct Hcase as (-> & -> & Hc3).
    assert (Order.remaining_quantity o1 = 0) as Ho1 by (simpl; lia).
    destruct fuel as [|fuel]; [simpl in Hfuel; fold l in Hfuel; rewrite Hq in Hfuel; simpl in Hfuel; lia|].
    cbn [match_level order]. rewrite Ho1. cbn. eexists. split; [done|].
    assert (Z.min (Order.remaining_quantity o) (PriceLevel.total_quantity l) = f) as Hmin by lia.
    split; simpl; fold o b l; rewrite ?Hmin; try done; try (intros; lia).
    + intros _. apply fill_status_filled.
    + exists [mk_event b t]. simpl.
      split; [done|]. split; [done|]. split; [lia|]. split; [by apply Forall_singleton|].
      split; [done|]. split; [intros; lia|].
      intros ev ->%list_elem_of_singleton Hx. apply Hex' in Hx. lia.
  - destruct (decide (rest = [])) as [->|Hne].
    + (* the level is consumed *)
      destruct Hcase as (-> & Hq3 & Hc3).
      destruct fuel as [|fuel]; [simpl in Hfuel; fold l in Hfuel; rewrite Hq in Hfuel; simpl in Hfuel; lia|].
      cbn [match_level order level]. rewrite Hq3.
      eexists. split; [by destruct (0 <? _)|].
      simpl in Htot.
      assert (Z.min (Order.remaining_quantity o) (PriceLevel.total_quantity l) = f) as Hmin by lia.
      split; simpl; fold o b l; rewrite ?Hmin; try done; try (intros; lia).
      * intros _. apply fill_status_filled.
      * apply fill_status_live.
      * exists [mk_event b t]. simpl.
        split; [done|]. split; [done|]. split; [lia|]. split; [by apply Forall_singleton|].
        split; [done|]. split; [intros _; apply Forall_singleton; apply Hex; lia|].
        intros ev ->%list_elem_of_singleton _. simpl. rewrite Hidx.
        rewrite decide_True by lia. apply lookup_delete_eq.
    + (* the head of the queue is consumed; go on with the rest *)
      destruct Hcase as (-> & -> & Hc3).
      specialize (Hsumpos Hne).
      destruct (IH (mk_mstate o1 b3
                      (PriceLevel.mk (PriceLevel.price l) rest (PriceLevel.total_quantity l - f))
                      true (events st ++ [mk_event b t]) (log st ++ [t])))
        as (st' & Hrun & Hpost); simpl; [done|done|done|lia|done| |].
      { simpl in Hfuel. fold l in Hfuel. rewrite Hq in Hfuel. simpl in Hfuel. lia. }
      exists st'. split; [done|].
      destruct Hpost
        as [P1 P2 Pi P3 P4 P5 P6 P7 P8 P9 (new & Pe1 & Pe2 & Pe3 & Pe4 & Pe5 & Pe6 & Pe7)].
      simpl in *.
      assert (f = Order.remaining_quantity r) as Hfr' by lia.
      assert (Z.min (Order.remaining_quantity o) (PriceLevel.total_quantity l)
              = f + Z.min (Order.remaining_quantity o - f) (PriceLevel.total_quantity l - f))
        as Hmin by lia.
      split; simpl; fold o b l; rewrite ?Hmin.
      * rewrite P1. unfold filled_by. simpl. f_equal; lia.
      * intros _ E. destruct (decide (0 < Z.min (Order.remaining_quantity o - f)
                                              (PriceLevel.total_quantity l - f))) as [Hp|Hp];
          [by apply P2|].
        assert (Z.min (Order.remaining_quantity o - f) (PriceLevel.total_quantity l - f) = 0)
          as Hz0 by lia.
        rewrite (Pi Hz0) in E |- *. simpl in *. by apply fill_status_filled.
      * intros. lia.
      * intros E. destruct (P3 E) as [-> | ->]; [|by right].
        apply fill_status_live. rewrite P1 in E. simpl in E. lia.
      * done.
      * by rewrite P5.
      * by rewrite P6.
      * eauto.
      * intros. apply P8. lia.
      * intros. apply P9. lia.
      * exists (mk_event b t :: new). rewrite Pe1, Pe2, <- !app_assoc. simpl.
        split; [done|]. split; [done|]. split; [f_equal; exact Pe3|]. split; [|split; [|split]].
        -- apply Forall_cons. split; [done|].
           eapply Forall_impl; [exact Pe4|]. intros ev. apply event_ok_filled_by.
        -- split; [intros _; apply Hex; lia|]. by eapply fifo_chain_filled_by.
        -- intros Hle. apply Forall_cons. split; [apply Hex; lia|].
           apply Pe6. lia.
        -- intros ev [->|Hin]%elem_of_cons Hx; [|by apply Pe7].
           simpl. destruct (OrderBook.orders (book st') !! Order.order_id r) eqn:E; [|done].
           apply P7 in E. rewrite Hidx, decide_True, lookup_delete_eq in E by lia. done.
Qed.

(** ** The outer loop *)

Lemma available_nonneg o sd m : Forall (level_ok sd) m → 0 ≤ available o m.
Proof.
  induction 1 as [|[k l] m Hl Hm IH]; simpl; [done|].
  destruct (beyond_limit o k); [done|].
  destruct (level_ok_head_facts _ _ _ Hl) as (r & rest & _ & [] & _ & ? & ? & _). lia.
Qed.

Lemma beyond_limit_sorted o k l m :
  side_sorted (opposite (Order.side o)) ((k, l) :: m) →
  beyond_limit o k = true →
  Forall (fun kl => beyond_limit o kl.1 = true) ((k, l) :: m).
Proof.
  intros [Hall _]%StronglySorted_cons Hk. apply Forall_cons. split; [done|].
  eapply Forall_impl; [exact Hall|]. intros [k' l']. simpl.
  unfold beyond_limit in *. destruct (Order.price o) as [p|]; [|done].
  unfold OrderBook.side_key, bids_key, asks_key.
  destruct (Order.side o); simpl; lia.
Qed.

Lemma book_post_idle st :
  book_ok (o_book st) →
  Z.min (Order.remaining_quantity (o_order st))
        (available (o_order st) (contra (o_order st) (o_book st))) = 0 →
  (Order.remaining_quantity (o_order st) ≠ 0 →
   Forall (fun kl => beyond_limit (o_order st) kl.1 = true)
     (contra (o_order st) (o_book st))) →
  book_post st st.
Proof.
  intros Hok Hmin Hres. split; rewrite ?Hmin; try done.
  - by rewrite filled_by_zero.
  - intros _. by left.
  - exists []. rewrite !app_nil_r. split_and!; try done.
    intros ev Hin. by apply elem_of_nil in Hin.
Qed.

Lemma available_filled_by o f s m : available (filled_by o f s) m = available o m.
Proof. induction m as [|[k l] m IH]; simpl; [done|]. by rewrite IH. Qed.

Lemma sum_quantity_app ts1 ts2 :
  sum_quantity (ts1 ++ ts2) = sum_quantity ts1 + sum_quantity ts2.
Proof. induction ts1 as [|t ts1 IH]; simpl; [done|]. rewrite IH. lia. Qed.

Lemma contra_filled_by o f s b : contra (filled_by o f s) b = contra o b.
Proof. done. Qed.

Section outer_loop.
#[local] Arguments match_level : simpl never.

Lemma match_book_ok fuel st :
  book_ok (o_book st) →
  0 ≤ Order.remaining_quantity (o_order st) →
  (length (contra (o_order st) (o_book st)) < fuel)%nat →
  ∃ st', match_book fuel st = (st', Completed) ∧ book_post st st'.
Proof.
  revert st. induction fuel as [|fuel IH]; intros st Hok Hrem Hfuel; [lia|].
  cbn [match_book].
  pose proof (ok_levels _ Hok (opposite (Order.side (o_order st)))) as Hlv.
  pose proof (ok_sorted _ Hok (opposite (Order.side (o_order st)))) as Hso.
  fold (contra (o_order st) (o_book st)) in Hlv, Hso.
  pose proof (available_nonneg (o_order st) _ _ Hlv) as Hav0.
  destruct (Z.ltb_spec 0 (Order.remaining_quantity (o_order st))) as [Hpos|Hle].
  2:{ exists st. split; [done|]. apply book_post_idle; [done|lia|lia]. }
  destruct (contra (o_order st) (o_book st)) as [|[k l] m'] eqn:Hc.
  { exists st. split; [done|]. apply book_post_idle; rewrite ?Hc; simpl; [done|lia|done]. }
  cbn [SortedDict.first_key SortedDict.keys fmap list_fmap head fst].
  destruct (beyond_limit (o_order st) k) eqn:Hlim.
  { exists st. split; [done|]. apply book_post_idle; rewrite ?Hc; simpl; rewrite ?Hlim; [done|lia|].
    intros _. by apply beyond_limit_sorted. }
  rewrite sd_lookup_head.
  apply Forall_cons in Hlv as [Hl Hm'].
  pose proof (available_nonneg (o_order st) _ _ Hm') as Hav.
  destruct (level_ok_head_facts _ _ _ Hl)
    as (r & rest & Hq & [] & _ & Htot & Hsum & _ & _).
  destruct (match_level_ok (S (length (PriceLevel.orders l))) k m'
              (mk_mstate (o_order st) (o_book st) l true (o_events st) (o_log st)))
    as (m & Hrun & Hpost); simpl; [done|done|done|lia|done|lia|].
  rewrite Hrun.
  destruct Hpost
    as [P1 P2 Pi P3 P4 P5 P6 P7 P8 P9 (new & Pe1 & Pe2 & Pe3 & Pe4 & Pe5 & Pe6 & Pe7)].
  simpl in *.
  pose proof (side_sorted_lookup_tail _ _ _ _ Hso) as Hk.
  set (o := o_order st) in *. set (b := o_book st) in *.
  set (T := PriceLevel.total_quantity l) in *.
  (* the engine finds nothing left to remove at [k] *)
  assert ((if bool_decide (is_Some (SortedDict.lookup k (contra o (book m))))
              && PriceLevel.is_empty (level m)
           then set_contra o (book m) (SortedDict.delete k (contra o (book m)))
           else book m) = book m) as ->.
  { destruct (decide (T ≤ Order.remaining_quantity o)) as [Hge|Hlt].
    - rewrite (P8 Hge), Hk. rewrite bool_decide_eq_false_2; [done|]. by intros [? ?].
    - assert (Order.remaining_quantity o < T) as Hlt' by lia.
      pose proof (ok_levels _ P4 (opposite (Order.side o))) as Hlv'.
      fold (contra o (book m)) in Hlv'. rewrite (P9 Hlt') in Hlv'.
      apply Forall_cons in Hlv' as [Hl' _].
      destruct (level_ok_head_facts _ _ _ Hl')
        as (r' & rest' & Hq' & [] & _ & Htot' & Hsum' & _ & _).
      unfold PriceLevel.is_empty. rewrite Hq'. simpl.
      destruct (Z.eqb_spec (PriceLevel.total_quantity (level m)) 0); [lia|].
      by rewrite andb_false_r. }
  destruct (decide (T ≤ Order.remaining_quantity o)) as [Hge|Hlt].
  - (* the level is consumed: go on with the next one *)
    specialize (P8 Hge).
    assert (Z.min (Order.remaining_quantity o) T = T) as HminT by lia.
    rewrite HminT in *.
    destruct (IH (mk_ostate (order m) (book m) (events m) (log m)))
      as (st' & Hrun' & Hpost'); simpl.
    { done. }
    { rewrite P1. simpl. lia. }
    { rewrite P1, contra_filled_by, P8. simpl in Hfuel. lia. }
    exists st'. split; [done|].
    destruct Hpost' as [Q1 Q2 Qi Q3 Q4 Q5 Q6 Q7 Q8 (new' & Qe1 & Qe2 & Qe3 & Qe4 & Qe5 & Qe6)].
    simpl in *. rewrite P1 in Q1, Q2, Qi, Q3, Q5, Q8, Qe3, Qe4, Qe5, Qe6. 
    rewrite contra_filled_by, P8 in *. simpl in *.
    rewrite available_filled_by in *.
    change (beyond_limit (filled_by o T (Order.status (order m)))) with (beyond_limit o) in Q8.
    assert (Z.min (Order.remaining_quantity o) (T + available o m')
            = T + Z.min (Order.remaining_quantity o - T) (available o m')) as Hmin by lia.
    split; simpl; fold o b; rewrite ?Hc; simpl; rewrite ?Hlim; fold T; rewrite ?Hmin.
    + rewrite Q1. unfold filled_by. simpl. f_equal; lia.
    + intros _ E.
      destruct (decide (0 < Z.min (Order.remaining_quantity o - T) (available o m')))
        as [Hp|Hp]; [by apply Q2|].
      assert (Z.min (Order.remaining_quantity o - T) (available o m') = 0) as Hz0 by lia.
      rewrite (Qi Hz0) in E |- *. rewrite P1 in E |- *. simpl in *. 
      apply P2; [lia|]. rewrite P1. simpl. lia.
    + intros. lia.
    + intros E. destruct (Q3 E) as [-> | ->]; [|by right].
      apply P3. rewrite Q1 in E. rewrite P1. simpl in *. lia.
    + done.
    + by rewrite Q5.
    + by rewrite Q6.
    + eauto.
    + done.
    + exists (new ++ new'). rewrite Qe1, Qe2, Pe1, Pe2, fmap_app, <- !app_assoc.
      split; [done|]. split; [done|]. split; [|split; [|split]].
      * rewrite sum_quantity_app, Pe3, Qe3. done.
      * apply Forall_app. split; [done|].
        eapply Forall_impl; [exact Qe4|]. intros ev. apply event_ok_filled_by.
      * apply fifo_chain_app; [by apply Pe6|]. by eapply fifo_chain_filled_by.
      * intros ev [Hin|Hin]%elem_of_app Hx; [|by apply Qe6].
        destruct (OrderBook.orders (o_book st') !! Trade.maker_order_id (ev_trade ev))
          eqn:E; [|done].
        apply Q7 in E. by rewrite (Pe7 _ Hin Hx) in E.
  - (* the order is exhausted inside the level *)
    assert (Order.remaining_quantity o < T) as Hlt' by lia.
    specialize (P9 Hlt').
    assert (Z.min (Order.remaining_quantity o) T = Order.remaining_quantity o) as HminT by lia.
    rewrite HminT in *.
    destruct fuel as [|fuel]; [simpl in Hfuel; lia|].
    cbn [match_book o_order]. rewrite P1. simpl.
    rewrite Z.sub_diag. simpl. rewrite <- P1.
    eexists. split; [done|].
    assert (Z.min (Order.remaining_quantity o) (T + available o m')
            = Order.remaining_quantity o) as Hmin by lia.
    split; simpl; fold o b; rewrite ?Hc; simpl; rewrite ?Hlim; fold T; rewrite ?Hmin; try done.
    + intros E. rewrite P1 in E. simpl in E. lia.
    + exists new. done.
Qed.

End outer_loop.

Lemma match_order_ok lg o b :
  book_ok b → 0 ≤ Order.remaining_quantity o →
  ∃ st', _match_order lg o b = (st', Completed) ∧ book_post (mk_ostate o b [] lg) st'.
Proof. intros. apply match_book_ok; simpl; [done|done|lia]. Qed.

(** ** Adding and removing orders *)

Section split.
Context {V : Type}.
Implicit Types (m pre post : SortedDict.t V).

Lemma sd_lookup_split k v m :
  SortedDict.lookup k m = Some v →
  ∃ pre post, m = pre ++ (k, v) :: post ∧ SortedDict.lookup k pre = None.
Proof.
  induction m as [|[k' v'] m IH]; simpl; [done|].
  destruct (Z.eqb_spec k' k) as [->|Hne].
  - intros [= ->]. by exists [], m.
  - intros (pre & post & -> & Hpre)%IH. exists ((k', v') :: pre), post.
    split; [done|]. simpl. by destruct (Z.eqb_spec k' k).
Qed.

Lemma sd_replace_split k v v' pre post :
  SortedDict.lookup k pre = None →
  SortedDict.replace k v' (pre ++ (k, v) :: post) = pre ++ (k, v') :: post.
Proof.
  induction pre as [|[k0 v0] pre IH]; simpl.
  - by rewrite Z.eqb_refl.
  - destruct (Z.eqb_spec k0 k); [done|]. intros H. by rewrite IH.
Qed.

Lemma sd_delete_split k v pre post :
  SortedDict.lookup k pre = None →
  SortedDict.delete k (pre ++ (k, v) :: post) = pre ++ post.
Proof.
  induction pre as [|[k0 v0] pre IH]; simpl.
  - by rewrite Z.eqb_refl.
  - destruct (Z.eqb_spec k0 k); [done|]. intros H. by rewrite IH.
Qed.

Lemma sd_insert_new_split (key : Z → Z) k v m :
  ∃ pre post, m = pre ++ post ∧
    SortedDict.insert_new key k v m = pre ++ (k, v) :: post ∧
    Forall (fun kv => key kv.1 ≤ key k) pre ∧
    match post with [] => True | kv :: _ => key k < key kv.1 end.
Proof.
  induction m as [|[k' v'] m IH]; simpl.
  - by exists [], [].
  - destruct (Z.ltb_spec (key k) (key k')).
    + by exists [], ((k', v') :: m).
    + destruct IH as (pre & post & -> & -> & Hpre & Hpost).
      exists ((k', v') :: pre), post. split_and!; [done..| |done].
      by apply Forall_cons.
Qed.
End split.

Lemma side_sorted_insert sd k (l : PriceLevel.t) pre post :
  side_sorted sd (pre ++ post) →
  SortedDict.lookup k (pre ++ post) = None →
  Forall (fun kv => OrderBook.side_key sd kv.1 ≤ OrderBook.side_key sd k) pre →
  match post with [] => True | kv :: _ => OrderBook.side_key sd k < OrderBook.side_key sd kv.1 end →
  side_sorted sd (pre ++ (k, l) :: post).
Proof.
  unfold side_sorted. rewrite !StronglySorted_app, StronglySorted_cons.
  intros (H1 & H2 & H3) Hk Hpre Hpost.
  apply sd_lookup_None in Hk. rewrite fmap_app, not_elem_of_app in Hk.
  destruct Hk as [Hk1 Hk2].
  assert (∀ kv, kv ∈ pre → OrderBook.side_key sd kv.1 < OrderBook.side_key sd k) as Hlt.
  { intros [k' l'] Hin. rewrite Forall_forall in Hpre. pose proof (Hpre _ Hin) as Hle.
    simpl in *. assert (k' ≠ k).
    { intros ->. apply Hk1. apply list_elem_of_fmap. by exists (k, l'). }
    destruct sd; unfold OrderBook.side_key, bids_key, asks_key in *; lia. }
  assert (Forall (fun kv => OrderBook.side_key sd k < OrderBook.side_key sd kv.1) post) as Hgt.
  { destruct post as [|kv post]; [done|]. apply Forall_cons. split; [done|].
    apply StronglySorted_cons in H3 as [H3 _].
    eapply Forall_impl; [exact H3|]. intros ? ?. simpl in *. lia. }
  split_and!; [|done|done|done].
  intros x1 x2 Hx1 [->|Hx2]%elem_of_cons; [by apply Hlt|]. by apply H1.
Qed.

Lemma sd_lookup_insert_mid sd pre k (l : PriceLevel.t) post p :
  side_sorted sd (pre ++ (k, l) :: post) →
  SortedDict.lookup p (pre ++ (k, l) :: post)
  = if decide (p = k) then Some l else SortedDict.lookup p (pre ++ post).
Proof.
  intros Hs. case_decide as Hp.
  - subst. by eapply sd_lookup_app_mid.
  - by eapply side_sorted_app_lookup.
Qed.

(** The book keeps its invariant when a level gains an order at its tail. *)
Lemma book_ok_grow_level b b' o p pre post mold lnew :
  book_ok b →
  Order.price o = Some p →
  OrderBook.side_book b (Order.side o) = mold →
  OrderBook.side_book b' (opposite (Order.side o))
    = OrderBook.side_book b (opposite (Order.side o)) →
  OrderBook.side_book b' (Order.side o) = pre ++ (p, lnew) :: post →
  OrderBook.orders b' = <[Order.order_id o := o]> (OrderBook.orders b) →
  level_ok (Order.side o) (p, lnew) →
  o ∈ PriceLevel.orders lnew →
  side_sorted (Order.side o) (pre ++ (p, lnew) :: post) →
  Forall (fun kl => beyond_limit o kl.1 = true)
    (OrderBook.side_book b (opposite (Order.side o))) →
  (mold = pre ++ post ∨
   ∃ l, mold = pre ++ (p, l) :: post ∧ PriceLevel.orders l ⊆ PriceLevel.orders lnew) →
  book_ok b'.
Proof.
  intros [Hlv Hso Hun Hix] Hp Hold Hother Hnew Hidx Hl Hin Hsorted Hlim Hcase.
  set (s := Order.side o) in *.
  assert (∀ sd, sd = s ∨ sd = opposite s) as Hsd by (intros [|]; destruct s; auto).
  split.
  - intros sd. destruct (Hsd sd) as [->| ->]; [|by rewrite Hother].
    rewrite Hnew. specialize (Hlv s). rewrite Hold in Hlv.
    destruct Hcase as [->|(l & -> & _)].
    + apply Forall_app in Hlv as [? ?]. apply Forall_app. split; [done|].
      by apply Forall_cons.
    + apply Forall_app in Hlv as [? [? ?]%Forall_cons]. apply Forall_app.
      split; [done|]. by apply Forall_cons.
  - intros sd. destruct (Hsd sd) as [->| ->]; [|by rewrite Hother]. by rewrite Hnew.
  - assert (∀ k, k ∈ (OrderBook.side_book b' s).*1 →
                k = p ∨ k ∈ (OrderBook.side_book b s).*1) as Hkeys.
    { intros k. rewrite Hnew, Hold.
      destruct Hcase as [->|(l & -> & _)]; rewrite !fmap_app, ?fmap_cons; simpl;
        rewrite ?elem_of_app, ?elem_of_cons, ?elem_of_app; tauto. }
    assert (∀ k, k ∈ (OrderBook.side_book b (opposite s)).*1 → beyond_limit o k = true)
      as Hbl.
    { intros k ([k' l'] & -> & Hk)%list_elem_of_fmap.
      rewrite Forall_forall in Hlim. by apply Hlim in Hk. }
    intros kb ka Hkb Hka. unfold uncrossed in Hun.
    unfold beyond_limit in Hbl. rewrite Hp in Hbl. fold s in Hbl.
    destruct s; simpl in *.
    + rewrite Hother in Hka. destruct (Hkeys _ Hkb) as [->|?]; [|by apply Hun].
      apply Hbl in Hka. lia.
    + rewrite Hother in Hkb. destruct (Hkeys _ Hka) as [->|?]; [|by apply Hun].
      apply Hbl in Hkb. lia.
  - intros id o' Hid. rewrite Hidx in Hid.
    apply lookup_insert_Some in Hid as [[<- <-]|[Hne Hid]].
    + exists p, lnew, o. fold s. rewrite Hnew.
      rewrite (sd_lookup_app_mid _ _ _ _ _ Hsorted). done.
    + destruct (Hix _ _ Hid) as (p' & l0 & r & Hp' & Hl0 & Hr & Hrid).
      destruct (Hsd (Order.side o')) as [Hs|Hs]; rewrite Hs in *;
        [|exists p', l0, r; by rewrite Hother].
      rewrite Hold in Hl0.
      assert (∀ q, SortedDict.lookup q (OrderBook.side_book b' s)
                   = if decide (q = p) then Some lnew
                     else SortedDict.lookup q (pre ++ post)) as Hlook.
      { intros q. rewrite Hnew. by eapply sd_lookup_insert_mid. }
      destruct Hcase as [->|(l & -> & Hsub)].
      * exists p', l0, r. rewrite Hlook. case_decide as E; [|done].
        subst p'. rewrite (sd_lookup_delete_mid _ _ _ _ _ _ Hsorted) in Hl0.
        by rewrite decide_True in Hl0.
      * specialize (Hso s). rewrite Hold in Hso.
        destruct (decide (p' = p)) as [->|E].
        -- rewrite (sd_lookup_app_mid _ _ _ _ _ Hso) in Hl0.
           injection Hl0 as <-. exists p, lnew, r. rewrite Hlook, decide_True by done.
           split_and!; [done..| |done]. by apply Hsub.
        -- exists p', l0, r. rewrite Hlook, decide_False by done.
           split_and!; [done| |done..].
           by rewrite <- (side_sorted_app_lookup _ _ _ _ _ _ Hso).
Qed.

Lemma sd_lookup_app {V} k (pre post : SortedDict.t V) :
  SortedDict.lookup k (pre ++ post)
  = match SortedDict.lookup k pre with
    | Some v => Some v
    | None => SortedDict.lookup k post
    end.
Proof.
  induction pre as [|[k' v'] pre IH]; simpl; [done|]. by destruct (k' =? k).
Qed.

Lemma sum_remaining_app q1 q2 :
  sum_remaining (q1 ++ q2) = sum_remaining q1 + sum_remaining q2.
Proof. induction q1 as [|o q1 IH]; simpl; [done|]. rewrite IH. lia. Qed.

Lemma add_order_ok b o p :
  book_ok b →
  Order.price o = Some p → 0 < p →
  0 < Order.remaining_quantity o →
  Order.order_type o = LIMIT →
  live (Order.status o) →
  Forall (fun kl => beyond_limit o kl.1 = true)
    (OrderBook.side_book b (opposite (Order.side o))) →
  ∃ b' l',
    OrderBook.add_order b o = Ok b' ∧ book_ok b' ∧
    OrderBook.symbol b' = OrderBook.symbol b ∧
    OrderBook.side_book b' (opposite (Order.side o))
      = OrderBook.side_book b (opposite (Order.side o)) ∧
    OrderBook.orders b' = <[Order.order_id o := o]> (OrderBook.orders b) ∧
    SortedDict.lookup p (OrderBook.side_book b' (Order.side o)) = Some l' ∧
    PriceLevel.orders l'
      = match SortedDict.lookup p (OrderBook.side_book b (Order.side o)) with
        | Some l => PriceLevel.orders l
        | None => []
        end ++ [o].
Proof.
  intros Hok Hp Hpos Hrem Hty Hst Hlim.
  unfold OrderBook.add_order.
  destruct (Z.leb_spec (Order.remaining_quantity o) 0); [lia|].
  rewrite Hp. set (s := Order.side o) in *. set (m := OrderBook.side_book b s) in *.
  pose proof (ok_sorted _ Hok s) as Hso. pose proof (ok_levels _ Hok s) as Hlv.
  fold m in Hso, Hlv.
  assert (resting_ok s p o) as Hro by (by split).
  destruct (SortedDict.lookup p m) as [l|] eqn:Hl.
  - (* the level exists *)
    rewrite Hl.
    destruct (sd_lookup_split _ _ _ Hl) as (pre & post & Hm & Hpre).
    rewrite Hm, (sd_replace_split _ _ _ _ _ Hpre).
    rewrite Hm in Hso, Hlv.
    apply Forall_app in Hlv as [_ [Hlo _]%Forall_cons].
    assert (level_ok s (p, PriceLevel.add_order l o)) as Hnew.
    { destruct Hlo as [? ? ? Hall Htot]. simpl in *. split; simpl; [done|done| | |].
      - by destruct (PriceLevel.orders l).
      - apply Forall_app. split; [done|]. by apply Forall_singleton.
      - rewrite sum_remaining_app, Htot. simpl. lia. }
    eexists _, (PriceLevel.add_order l o). split; [reflexivity|].
    assert (side_sorted s (pre ++ (p, PriceLevel.add_order l o) :: post)) as Hso'
      by (by eapply side_sorted_replace_mid).
    split_and!.
    + eapply (book_ok_grow_level b _ o p pre post m (PriceLevel.add_order l o));
        try done; fold s.
      * by destruct s.
      * by destruct s.
      * simpl. set_solver.
      * right. exists l. split; [done|]. simpl. set_solver.
    + by destruct s.
    + by destruct s.
    + by destruct s.
    + replace (OrderBook.side_book _ s) with (pre ++ (p, PriceLevel.add_order l o) :: post)
        by (by destruct s).
      by eapply sd_lookup_app_mid.
    + done.
  - (* a new level is created *)
    unfold SortedDict.setitem. rewrite Hl.
    destruct (sd_insert_new_split (OrderBook.side_key s) p (PriceLevel.init p) m)
      as (pre & post & Hm & -> & Hle & Hgt).
    assert (SortedDict.lookup p pre = None) as Hpre.
    { rewrite Hm, sd_lookup_app in Hl. by destruct (SortedDict.lookup p pre). }
    rewrite sd_lookup_app, Hpre, sd_lookup_head, (sd_replace_split _ _ _ _ _ Hpre).
    assert (level_ok s (p, PriceLevel.add_order (PriceLevel.init p) o)) as Hnew.
    { split; simpl; [done|done|done| |lia]. by apply Forall_singleton. }
    assert (side_sorted s (pre ++ (p, PriceLevel.add_order (PriceLevel.init p) o) :: post))
      as Hso'.
    { rewrite Hm in Hso, Hl. by apply side_sorted_insert. }
    eexists _, (PriceLevel.add_order (PriceLevel.init p) o). split; [reflexivity|].
    split_and!.
    + eapply (book_ok_grow_level b _ o p pre post m
                (PriceLevel.add_order (PriceLevel.init p) o));
        try done; fold s.
      * by destruct s.
      * by destruct s.
      * simpl. set_solver.
      * by left.
    + by destruct s.
    + by destruct s.
    + by destruct s.
    + replace (OrderBook.side_book _ s)
        with (pre ++ (p, PriceLevel.add_order (PriceLevel.init p) o) :: post)
        by (by destruct s).
      by eapply sd_lookup_app_mid.
    + done.
Qed.

Lemma find_remove_Some id q :
  (∃ r, r ∈ q ∧ Order.order_id r = id) →
  ∃ q1 r' q2, q = q1 ++ r' :: q2 ∧ Order.order_id r' = id ∧
    PriceLevel.find_remove id q = Some (r', q1 ++ q2).
Proof.
  induction q as [|o q IH]; intros (r & Hr & Hid); [by apply elem_of_nil in Hr|].
  simpl. case_bool_decide as E.
  - by exists [], o, q.
  - apply elem_of_cons in Hr as [->|Hr]; [done|].
    destruct IH as (q1 & r' & q2 & -> & ? & ->); [eauto|].
    by exists (o :: q1), r', q2.
Qed.

Lemma remove_order_miss b id :
  OrderBook.orders b !! id = None → OrderBook.remove_order b id = (b, None).
Proof. intros H. unfold OrderBook.remove_order. by rewrite H. Qed.

Lemma remove_order_hit b id :
  book_ok b → is_Some (OrderBook.orders b !! id) →
  ∃ b' r p, OrderBook.remove_order b id = (b', Some r) ∧ book_ok b' ∧
    Order.order_id r = id ∧ resting_ok (Order.side r) p r ∧
    OrderBook.symbol b' = OrderBook.symbol b ∧
    OrderBook.orders b' = delete id (OrderBook.orders b).
Proof.
  intros Hok [o Ho]. unfold OrderBook.remove_order. rewrite Ho.
  destruct (ok_index _ Hok _ _ Ho) as (p & l & r0 & Hp & Hl & Hr0 & Hid).
  rewrite Hp, Hl. set (s := Order.side o) in *.
  destruct (find_remove_Some id (PriceLevel.orders l)) as (q1 & r & q2 & Hq & Hrid & Hfind);
    [eauto|].
  unfold PriceLevel.remove_order. rewrite Hfind.
  destruct (sd_lookup_split _ _ _ Hl) as (pre & post & Hm & Hpre).
  pose proof (ok_levels _ Hok s) as Hlv. rewrite Hm in Hlv.
  apply Forall_app in Hlv as [_ [Hlo _]%Forall_cons].
  destruct Hlo as [Hlp Hkpos Hne Hall Htot]. simpl in *.
  rewrite Hq in Hall, Htot.
  assert (resting_ok s p r) as Hr.
  { rewrite Forall_forall in Hall. apply Hall. set_solver. }
  assert (Forall (resting_ok s p) (q1 ++ q2)) as Hall'.
  { apply Forall_app in Hall as [? [? ?]%Forall_cons]. by apply Forall_app. }
  rewrite sum_remaining_app in Htot. simpl in Htot.
  set (l' := PriceLevel.mk _ _ _).
  assert (PriceLevel.total_quantity l' = sum_remaining (q1 ++ q2)) as Htot'.
  { simpl. rewrite sum_remaining_app. lia. }
  assert (PriceLevel.is_empty l' = bool_decide (q1 ++ q2 = [])) as ->.
  { unfold PriceLevel.is_empty. rewrite Htot'. simpl.
    destruct (decide (q1 ++ q2 = [])) as [->|Hnn]; [done|].
    pose proof (sum_remaining_pos _ _ _ Hall' Hnn).
    rewrite (bool_decide_eq_false_2 (q1 ++ q2 = [])) by done.
    rewrite bool_decide_eq_false_2; [|by destruct (q1 ++ q2)].
    simpl. destruct (Z.eqb_spec (sum_remaining (q1 ++ q2)) 0); [lia|done]. }
  rewrite Hm, (sd_delete_split _ _ _ _ Hpre), (sd_replace_split _ _ _ _ _ Hpre).
  eexists _, r, p. split; [reflexivity|].
  assert (Order.side r = s) as Hrs by (by destruct Hr).
  rewrite Hrs.
  split_and!; [|done|done|by destruct s; case_bool_decide|by destruct s; case_bool_decide].
  eapply (book_ok_change_level b _ s pre p l post); [done|done| |reflexivity| |].
  - destruct s; by case_bool_decide.
  - intros id' o'. replace (OrderBook.orders _) with (delete id (OrderBook.orders b))
      by (destruct s; by case_bool_decide).
    by intros [_ ?]%lookup_delete_Some.
  - assert (∀ x, OrderBook.orders
               (OrderBook.set_orders x (delete id (OrderBook.orders x))) !! id = None)
      as Hgone by (intros; apply lookup_delete_eq).
    case_bool_decide as E.
    + left. split; [by destruct s|].
      intros r1. rewrite Hq. apply app_eq_nil in E as [-> ->]. simpl.
      intros ->%list_elem_of_singleton. rewrite Hrid. apply Hgone.
    + right. exists l'. split; [by destruct s|]. split.
      * split; simpl; [done|done|done|done|]. rewrite sum_remaining_app. lia.
      * intros r1. rewrite Hq. intros Hin.
        apply elem_of_app in Hin as [Hin|[->|Hin]%elem_of_cons].
        -- right. exists r1. split; [|done]. simpl. set_solver.
        -- left. rewrite Hrid. apply Hgone.
        -- right. exists r1. split; [|done]. simpl. set_solver.
Qed.

(** ** Submissions and cancels keep the books well-formed *)

Lemma new_order_facts o :
  new_order o →
  0 < Order.quantity o ∧
  Order.remaining_quantity o = Order.quantity o ∧
  Order.filled_quantity o = 0 ∧
  Order.status o = PENDING ∧
  (Order.order_type o = MARKET → Order.price o = None) ∧
  (Order.order_type o ≠ MARKET → ∃ p, Order.price o = Some p ∧ 0 < p).
Proof.
  intros (id & sym & ty & sd & q & p & H). unfold Order.new, Order.init in H.
  destruct (Z.leb_spec q 0); [done|].
  destruct ty, p as [p|]; simpl in H; try done;
    try (destruct (Z.leb_spec p 0); [done|]);
    injection H as <-; simpl;
    (split_and!; [done|lia|done|done|done|by eauto]).
Qed.

Lemma book_ok_init sym : book_ok (OrderBook.init sym).
Proof.
  split.
  - intros []; constructor.
  - intros []; constructor.
  - intros kb ka Hkb. by apply elem_of_nil in Hkb.
  - intros id o H. simpl in H. by apply lookup_empty_Some in H.
Qed.

(** What [_process_limit_order] does on a well-formed book. *)
Lemma process_limit_ok lg o b :
  book_ok b → new_order o → Order.order_type o = LIMIT →
  ∃ st', _match_order lg o b = (st', Completed) ∧ book_post (mk_ostate o b [] lg) st' ∧
    let p := _process_limit_order lg o b in
    p_outcome p = Completed ∧ p_order p = o_order st' ∧ p_log p = o_log st' ∧
    p_trades p = trades_of st' ∧ book_ok (p_book p) ∧
    OrderBook.symbol (p_book p) = OrderBook.symbol b ∧
    contra o (p_book p) = contra o (o_book st') ∧
    (Order.remaining_quantity (o_order st') = 0 → p_book p = o_book st') ∧
    (Order.remaining_quantity (o_order st') ≠ 0 →
       OrderBook.add_order (o_book st') (o_order st') = Ok (p_book p)).
Proof.
  intros Hok Hnew Hty.
  destruct (new_order_facts _ Hnew) as (Hq & Hrem & Hfil & Hst & _ & Hprice).
  destruct Hprice as (p & Hp & Hppos); [by rewrite Hty|].
  destruct (match_order_ok lg o b) as (st' & Hrun & Hpost); [done|lia|].
  exists st'. split; [done|]. split; [done|].
  unfold _process_limit_order. rewrite Hrun.
  pose proof Hpost as [P1 P2 Pi P3 P4 P5 P6 P7 P8 _]. simpl in *.
  destruct (Z.ltb_spec 0 (Order.remaining_quantity (o_order st'))) as [Hpos|Hle].
  - destruct (add_order_ok (o_book st') (o_order st') p) as (b' & l' & Hadd & Hok' & Hsym & Hother & _).
    + done.
    + by rewrite P1.
    + done.
    + done.
    + by rewrite P1.
    + assert (Order.remaining_quantity (o_order st') ≠ 0) as Hnz by lia.
      destruct (P3 Hnz) as [-> | ->]; [rewrite Hst; by left|by right].
    + rewrite P1. apply P8. lia.
    + rewrite Hadd. simpl. split_and!; try done.
      * by rewrite Hsym.
      * rewrite P1 in Hother. done.
      * lia.
  - simpl. split_and!; try done. rewrite P1 in Hle |- *. simpl in *. lia.
Qed.

(** MARKET and IOC orders are matched and never handed to [add_order]. *)
Lemma process_market_ok lg o b :
  book_ok b → new_order o →
  ∃ st', _match_order lg o b = (st', Completed) ∧ book_post (mk_ostate o b [] lg) st' ∧
    _process_market_order lg o b
    = mk_processed
        (if 0 <? Order.remaining_quantity (o_order st')
         then Order.set_status (o_order st') CANCELLED else o_order st')
        (o_book st') (o_log st') (trades_of st') Completed.
Proof.
  intros Hok Hnew.
  destruct (new_order_facts _ Hnew) as (Hq & Hrem & _).
  destruct (match_order_ok lg o b) as (st' & Hrun & Hpost); [done|lia|].
  exists st'. split; [done|]. split; [done|].
  unfold _process_market_order. by rewrite Hrun.
Qed.

Lemma process_ioc_ok lg o b :
  book_ok b → new_order o →
  ∃ st', _match_order lg o b = (st', Completed) ∧ book_post (mk_ostate o b [] lg) st' ∧
    _process_ioc_order lg o b
    = mk_processed
        (if 0 <? Order.remaining_quantity (o_order st')
         then Order.set_status (o_order st') CANCELLED else o_order st')
        (o_book st') (o_log st') (trades_of st') Completed.
Proof.
  intros Hok Hnew.
  destruct (new_order_facts _ Hnew) as (Hq & Hrem & _).
  destruct (match_order_ok lg o b) as (st' & Hrun & Hpost); [done|lia|].
  exists st'. split; [done|]. split; [done|].
  unfold _process_ioc_order. by rewrite Hrun.
Qed.

(** The precheck of FOK orders compares the quantity with what is
    available inside the limit. *)
Lemma can_fill_loop_spec o sd q m :
  Forall (level_ok sd) m →
  can_fill_loop o q m = bool_decide (q ≤ available o m).
Proof.
  intros Hm. revert q. induction Hm as [|[k l] m Hl Hm IH]; intros q; simpl.
  - destruct (Z.leb_spec q 0); by rewrite ?bool_decide_eq_true_2, ?bool_decide_eq_false_2 by lia.
  - pose proof (available_nonneg o _ _ Hm).
    destruct (level_ok_head_facts _ _ _ Hl) as (r & rest & _ & [] & _ & ? & ? & _).
    destruct (beyond_limit o k).
    + destruct (Z.leb_spec q 0); by rewrite ?bool_decide_eq_true_2, ?bool_decide_eq_false_2 by lia.
    + destruct (Z.leb_spec q (PriceLevel.total_quantity l)).
      * by rewrite bool_decide_eq_true_2 by lia.
      * rewrite IH. apply bool_decide_ext. lia.
Qed.

Lemma process_fok_ok lg o b :
  book_ok b → new_order o →
  (_can_fill_completely o b = false ∧
   _process_fok_order lg o b = mk_processed (Order.set_status o CANCELLED) b lg [] Completed) ∨
  (_can_fill_completely o b = true ∧
   ∃ st', _match_order lg o b = (st', Completed) ∧ book_post (mk_ostate o b [] lg) st' ∧
     Order.remaining_quantity (o_order st') = 0 ∧
     Order.status (o_order st') = FILLED ∧
     sum_quantity (trades_of st') = Order.quantity o ∧
     _process_fok_order lg o b
     = mk_processed (o_order st') (o_book st') (o_log st') (trades_of st') Completed).
Proof.
  intros Hok Hnew. unfold _process_fok_order.
  destruct (_can_fill_completely o b) eqn:Hcan; simpl; [right|by left].
  split; [done|].
  destruct (new_order_facts _ Hnew) as (Hq & Hrem & _).
  destruct (match_order_ok lg o b) as (st' & Hrun & Hpost); [done|lia|].
  exists st'. split; [done|]. split; [done|]. rewrite Hrun.
  unfold _can_fill_completely in Hcan.
  rewrite (can_fill_loop_spec o (opposite (Order.side o))) in Hcan
    by apply (ok_levels _ Hok).
  apply bool_decide_eq_true_1 in Hcan. unfold SortedDict.items in Hcan.
  destruct Hpost as [P1 P2 Pi P3 P4 P5 P6 P7 P8 (new & Pe1 & Pe2 & Pe3 & _)]. simpl in *.
  assert (Z.min (Order.remaining_quantity o) (available o (contra o b))
          = Order.quantity o) as Hmin by lia.
  rewrite Hmin in *.
  assert (Order.remaining_quantity (o_order st') = 0) as Hz.
  { rewrite P1. simpl. lia. }
  rewrite Hz. simpl. split_and!; [done|apply P2; [lia|done]| |done].
  unfold trades_of. by rewrite Pe1.
Qed.

Lemma process_ok lg o b :
  book_ok b → new_order o →
  p_outcome (process lg o b) = Completed ∧ book_ok (p_book (process lg o b)) ∧
  OrderBook.symbol (p_book (process lg o b)) = OrderBook.symbol b.
Proof.
  intros Hok Hnew. unfold process. destruct (Order.order_type o) eqn:Hty.
  - destruct (process_market_ok lg o b) as (st' & _ & [] & ->); done.
  - destruct (process_limit_ok lg o b) as (st' & _ & _ & ? & _ & _ & _ & ? & ? & _); done.
  - destruct (process_ioc_ok lg o b) as (st' & _ & [] & ->); done.
  - destruct (process_fok_ok lg o b) as [[_ ->]|(_ & st' & _ & [] & _ & _ & _ & ->)]; done.
Qed.


Lemma get_or_create_ok e sym :
  engine_ok e →
  engine_ok (get_or_create_order_book e sym).1 ∧
  book_ok (get_or_create_order_book e sym).2.
Proof.
  intros He. unfold get_or_create_order_book.
  destruct (order_books e !! sym) as [b|] eqn:E; simpl.
  - split; [done|]. by eapply He.
  - split; [|apply book_ok_init]. intros sym' b'. simpl.
    intros [[<- <-]|[_ ?]]%lookup_insert_Some; [apply book_ok_init|by eapply He].
Qed.

Lemma submit_order_engine_ok e o :
  engine_ok e → new_order o → engine_ok (submit_order e o).1.1.
Proof.
  intros He Hnew. unfold submit_order.
  pose proof (get_or_create_ok e (Order.symbol o) He) as [He1 Hb].
  destruct (get_or_create_order_book e (Order.symbol o)) as [e1 b]. simpl in *.
  destruct (process_ok (trades e1) o b) as (Hout & Hok & _); [done..|].
  rewrite Hout. simpl. intros sym b' H. simpl in H.
  apply lookup_insert_Some in H as [[<- <-]|[_ ?]]; [done|by eapply He1].
Qed.

Lemma cancel_order_engine_ok e sym id :
  engine_ok e → engine_ok (cancel_order e sym id).1.1.
Proof.
  intros He. unfold cancel_order.
  destruct (order_books e !! sym) as [b|] eqn:E; [|done].
  pose proof (He _ _ E) as Hb.
  destruct (OrderBook.orders b !! id) as [o|] eqn:Hid.
  - destruct (remove_order_hit b id) as (b' & r & p & -> & Hok' & _); [done|eauto|].
    simpl. intros sym' b'' H. simpl in H.
    apply lookup_insert_Some in H as [[<- <-]|[_ ?]]; [done|by eapply He].
  - rewrite remove_order_miss by done. simpl. intros sym' b'' H. simpl in H.
    apply lookup_insert_Some in H as [[<- <-]|[_ ?]]; [done|by eapply He].
Qed.

Lemma reachable_engine_ok e : reachable e → engine_ok e.
Proof.
  induction 1 as [|e o _ IH Hnew|e sym id _ IH].
  - intros sym b H. simpl in H. by apply lookup_empty_Some in H.
  - by apply submit_order_engine_ok.
  - by apply cancel_order_engine_ok.
Qed.

(** ** The claims *)



Lemma submit_book_ok e sym :
  reachable e → book_ok (get_or_create_order_book e sym).2.
Proof. intros He. by apply get_or_create_ok, reachable_engine_ok. Qed.



Lemma get_or_create_trades e sym : trades (get_or_create_order_book e sym).1 = trades e.
Proof. unfold get_or_create_order_book. by destruct (order_books e !! sym). Qed.

Lemma submit_order_unfold e o :
  submit_order e o =
  let e1 := (get_or_create_order_book e (Order.symbol o)).1 in
  let b := (get_or_create_order_book e (Order.symbol o)).2 in
  let p := process (trades e) o b in
  let e2 := MatchingEngine.mk (<[Order.symbol o := p_book p]> (order_books e1)) (p_log p) in
  match p_outcome p with
  | Completed =>
      (e2, p_order p,
       ExecutionReport (Order.order_id (p_order p))
         (OrderStatus_value (Order.status (p_order p)))
         (str_decimal (Order.filled_quantity (p_order p)))
         (str_decimal (Order.remaining_quantity (p_order p)))
         (p_trades p))
  | Raised err =>
      (e2, Order.set_status (p_order p) REJECTED,
       RejectedReport (Order.order_id o) (OrderStatus_value REJECTED) err)
  | OutOfFuel => (e2, p_order p, Diverged)
  end.
Proof.
  unfold submit_order. rewrite <- (get_or_create_trades e (Order.symbol o)).
  by destruct (get_or_create_order_book e (Order.symbol o)).
Qed.








(** C6.  IOC and MARKET orders never rest.  After an IOC or MARKET order is
    submitted to a reachable engine, the side of the book the order belongs
    to is as it was, every order held in any level of the book is a LIMIT
    order, the id index has no entry that it did not have before, and the
    order, if it has quantity left, is CANCELLED. *)
Theorem ioc_market_never_rest e o :
  reachable e → new_order o →
  Order.order_type o = IOC ∨ Order.order_type o = MARKET →
  let b := (get_or_create_order_book e (Order.symbol o)).2 in
  let e' := (submit_order e o).1.1 in
  let o' := (submit_order e o).1.2 in
  ∃ b',
    order_books e' !! Order.symbol o = Some b' ∧
    OrderBook.side_book b' (Order.side o) = OrderBook.side_book b (Order.side o) ∧
    (∀ sd k l r, (k, l) ∈ OrderBook.side_book b' sd → r ∈ PriceLevel.orders l →
       Order.order_type r = LIMIT ∧ r ≠ o') ∧
    (∀ id x, OrderBook.orders b' !! id = Some x → OrderBook.orders b !! id = Some x) ∧
    (0 < Order.remaining_quantity o' → Order.status o' = CANCELLED) ∧
    (Order.remaining_quantity o' = 0 → Order.status o' = FILLED).
Proof.
  intros He Hnew Hty b e' o'.
  pose proof (submit_book_ok e (Order.symbol o) He) as Hb. fold b in Hb.
  destruct (new_order_facts _ Hnew) as (Hq & Hrem & _).
  assert (∃ st', _match_order (trades e) o b = (st', Completed) ∧
            book_post (mk_ostate o b [] (trades e)) st' ∧
            process (trades e) o b
            = mk_processed
                (if 0 <? Order.remaining_quantity (o_order st')
                 then Order.set_status (o_order st') CANCELLED else o_order st')
                (o_book st') (o_log st') (trades_of st') Completed)
    as (st' & Hrun & Hpost & Hproc).
  { unfold process. destruct Hty as [-> | ->].
    - by apply process_ioc_ok.
    - by apply process_market_ok. }
  subst e' o'. rewrite submit_order_unfold. cbv zeta. fold b. rewrite Hproc. simpl.
  destruct Hpost as [P1 P2 _ _ P4 P5 _ P7 _ _]. simpl in *.
  exists (o_book st'). rewrite lookup_insert_eq. split_and!; [done|done| |done| |].
  - intros sd k l r Hin Hr.
    pose proof (ok_levels _ P4 sd) as Hlv. rewrite Forall_forall in Hlv.
    apply Hlv in Hin as [_ _ _ Hall _]. simpl in Hall.
    rewrite Forall_forall in Hall. apply Hall in Hr as [_ _ _ Hlim _].
    split; [done|]. intros ->.
    assert (Order.order_type (o_order st') = Order.order_type o) as Ht by (by rewrite P1).
    destruct (0 <? _); simpl in Hlim; rewrite Ht in Hlim; destruct Hty; congruence.
  - destruct (Z.ltb_spec 0 (Order.remaining_quantity (o_order st'))); simpl; [done|lia].
  - destruct (Z.ltb_spec 0 (Order.remaining_quantity (o_order st'))); simpl; [lia|].
    intros Hz. apply P2; [|done]. rewrite P1 in Hz. simpl in Hz. lia.
Qed.







Lemma submit_order_book e o :
  reachable e → new_order o →
  let p := process (trades e) o (get_or_create_order_book e (Order.symbol o)).2 in
  order_books (submit_order e o).1.1 !! Order.symbol o = Some (p_book p) ∧
  (submit_order e o).1.2 = p_order p.
Proof.
  intros He Hnew p. rewrite submit_order_unfold. cbv zeta. fold p.
  destruct (process_ok (trades e) o _ (submit_book_ok e (Order.symbol o) He) Hnew)
    as (Hout & _). fold p in Hout. rewrite Hout. simpl.
  by rewrite lookup_insert_eq.
Qed.








(** C7.  The BBO of a book with an empty side.  For a symbol that has a
    book, the dictionary returned by [get_bbo] has [None] for the best price
    of an empty side and the string "0" for its quantity. *)
Theorem bbo_empty_side e symbol b :
  order_books e !! symbol = Some b →
  ∃ d, get_bbo e symbol = Some d ∧
    (OrderBook.bids b = [] →
       d !! "best_bid" = Some PyNone ∧ d !! "best_bid_quantity" = Some (PyStr "0")) ∧
    (OrderBook.asks b = [] →
       d !! "best_ask" = Some PyNone ∧ d !! "best_ask_quantity" = Some (PyStr "0")).
Proof.
  intros Hb. unfold get_bbo. rewrite Hb. eexists. split; [reflexivity|].
  unfold BBO.to_dict, OrderBook.get_bbo, OrderBook.get_best_bid, OrderBook.get_best_ask.
  split; intros ->;
    cbn [BBO.best_bid BBO.best_bid_quantity BBO.best_ask BBO.best_ask_quantity
         SortedDict.first_key SortedDict.keys head fmap list_fmap truthy
         OrderBook.best_quantity];
    split.
  - by rewrite lookup_insert_ne, lookup_insert_eq by done.
  - by rewrite !lookup_insert_ne, lookup_insert_eq by done.
  - by rewrite !lookup_insert_ne, lookup_insert_eq by done.
  - by rewrite !lookup_insert_ne, lookup_insert_eq by done.
Qed.

(** ** The claims at the sample inputs *)

Lemma new_order_sample_sell : new_order sample_sell.
Proof. by exists "s1", "BTC-USDT", LIMIT, SELL, 1, (Some 50000). Qed.
Lemma new_order_sample_ioc : new_order sample_ioc.
Proof. by exists "i1", "BTC-USDT", IOC, BUY, 2, (Some 50000). Qed.

Lemma reachable_sample_engine : reachable sample_engine.
Proof. apply reach_submit; [apply reach_init|apply new_order_sample_sell]. Qed.

Lemma sample_engine_book : order_books sample_engine !! "BTC-USDT" = Some sample_book.
Proof. vm_compute. reflexivity. Qed.







Lemma ioc_market_never_rest_witness :
  ∃ b',
    order_books (submit_order sample_engine sample_ioc).1.1 !! "BTC-USDT" = Some b' ∧
    OrderBook.side_book b' BUY = [] ∧
    Order.status (submit_order sample_engine sample_ioc).1.2 = CANCELLED.
Proof.
  destruct (ioc_market_never_rest sample_engine sample_ioc reachable_sample_engine
              new_order_sample_ioc (or_introl eq_refl))
    as (b' & Hb' & Hown & _ & _ & Hcancel & _).
  exists b'. split; [exact Hb'|]. split; [exact Hown|].
  apply Hcancel. vm_compute. reflexivity.
Defined.

Lemma bbo_empty_side_witness :
  ∃ d, get_bbo sample_engine "BTC-USDT" = Some d ∧
       d !! "best_bid" = Some PyNone ∧ d !! "best_bid_quantity" = Some (PyStr "0").
Proof.
  destruct (bbo_empty_side sample_engine "BTC-USDT" sample_book sample_engine_book)
    as (d & Hd & Hbid & _).
  exists d. split; [exact Hd|]. apply Hbid. reflexivity.
Defined.

(** C7, as the claim has it: with no bid in the book the quantity field of
    the bid side is the string "0", not [None]. *)
Lemma bbo_quantity_of_empty_side_is_zero :
  ∃ d, OrderBook.bids sample_book = [] ∧
       get_bbo sample_engine "BTC-USDT" = Some d ∧
       d !! "best_bid_quantity" = Some (PyStr "0") ∧
       d !! "best_bid_quantity" ≠ Some PyNone.
Proof.
  eexists. split; [reflexivity|]. split; [vm_compute; reflexivity|].
  split; [vm_compute; reflexivity|]. vm_compute. discriminate.
Qed.


(** ** The end-to-end scenarios *)

Example scenario_simple_cross :
  let r := submit_order (engine_with [sell "A" 1 50000]) (buy "T" LIMIT 1 50000) in
  r.2 = ExecutionReport "T" "filled" "1" "0" [Trade.mk "BTC-USDT" 50000 1 BUY "A" "T"] ∧
  book_of r.1.1 = Some (OrderBook.init "BTC-USDT").
Proof. split; vm_compute; reflexivity. Qed.

Example scenario_price_time_priority :
  let r := submit_order (engine_with [sell "A" 1 50000; sell "B" 1 50000; sell "C" 1 50000])
             (buy "T" LIMIT 1 50000) in
  r.2 = ExecutionReport "T" "filled" "1" "0" [Trade.mk "BTC-USDT" 50000 1 BUY "A" "T"] ∧
  (OrderBook.asks <$> book_of r.1.1)
  = Some [(50000, PriceLevel.mk 50000 [sell "B" 1 50000; sell "C" 1 50000] 2)].
Proof. split; vm_compute; reflexivity. Qed.

Example scenario_no_trade_through :
  (submit_order (engine_with [sell "A" 1 50000; sell "B" 1 50100])
     (buy "T" LIMIT 2 50100)).2
  = ExecutionReport "T" "filled" "2" "0"
      [Trade.mk "BTC-USDT" 50000 1 BUY "A" "T"; Trade.mk "BTC-USDT" 50100 1 BUY "B" "T"].
Proof. vm_compute. reflexivity. Qed.

Example scenario_ioc_partial :
  let r := submit_order (engine_with [sell "A" 1 50000]) (buy "T" IOC 2 50000) in
  r.2 = ExecutionReport "T" "cancelled" "1" "1" [Trade.mk "BTC-USDT" 50000 1 BUY "A" "T"] ∧
  book_of r.1.1 = Some (OrderBook.init "BTC-USDT").
Proof. split; vm_compute; reflexivity. Qed.

Example scenario_fok_killed :
  let e := engine_with [sell "A" 1 50000] in
  let r := submit_order e (buy "T" FOK 2 50000) in
  r.2 = ExecutionReport "T" "cancelled" "0" "2" [] ∧ r.1.1 = e.
Proof. split; vm_compute; reflexivity. Qed.

Example scenario_fok_filled_across_levels :
  let r := submit_order (engine_with [sell "A" 1 50000; sell "B" 2 50100])
             (buy "T" FOK 3 50100) in
  r.2 = ExecutionReport "T" "filled" "3" "0"
          [Trade.mk "BTC-USDT" 50000 1 BUY "A" "T"; Trade.mk "BTC-USDT" 50100 2 BUY "B" "T"] ∧
  book_of r.1.1 = Some (OrderBook.init "BTC-USDT").
Proof. split; vm_compute; reflexivity. Qed.

Example scenario_cancel :
  let e := engine_with [sell "A" 1 50000; sell "B" 2 50100] in
  (cancel_order e "BTC-USDT" "A").2 = CancelledReport "A" "cancelled" ∧
  (OrderBook.asks <$> book_of (cancel_order e "BTC-USDT" "A").1.1)
  = Some [(50100, PriceLevel.mk 50100 [sell "B" 2 50100] 2)] ∧
  (cancel_order e "ETH-USDT" "A").2
  = CancelError "A" "error" "No order book for ETH-USDT".
Proof. split_and!; vm_compute; reflexivity. Qed.

(** * Further properties *)

(** ** Orders *)







(** ** Price levels *)





(** ** The sorted dictionary under insertion and deletion *)

Section SortedDict_round_trip.
Context {V : Type}.
Implicit Types (m : SortedDict.t V) (k : Z) (v : V).






End SortedDict_round_trip.

(** ** Adding an order to a book and removing it again *)

Lemma set_side_book_id b sd idx :
  OrderBook.set_orders (OrderBook.set_side_book b sd (OrderBook.side_book b sd)) idx
  = OrderBook.set_orders b idx.
Proof. by destruct b, sd. Qed.


(** ** Traces of the matching loops, on any book *)

Lemma keys_within_refl b : keys_within b b.
Proof. intros sd. done. Qed.

Lemma keys_within_trans b1 b2 b3 :
  keys_within b1 b2 → keys_within b2 b3 → keys_within b1 b3.
Proof. intros H1 H2 sd. etrans; [apply H2|apply H1]. Qed.

Lemma shrinking_weaken b b1 evs b' :
  keys_within b b1 → shrinking b1 evs b' → shrinking b evs b'.
Proof.
  destruct evs as [|ev evs]; cbn.
  - apply keys_within_trans.
  - intros H [H1 H2]. split; [|done]. by eapply keys_within_trans.
Qed.

Lemma shrinking_app b evs1 b1 evs2 b2 :
  shrinking b evs1 b1 → shrinking b1 evs2 b2 → shrinking b (evs1 ++ evs2) b2.
Proof.
  revert b. induction evs1 as [|ev evs1 IH]; intros b; cbn.
  - apply shrinking_weaken.
  - intros [H1 H2] H3. split; [done|]. by apply IH.
Qed.

Lemma shrinking_end b evs b' : shrinking b evs b' → keys_within b b'.
Proof.
  revert b. induction evs as [|ev evs IH]; intros b; cbn; [done|].
  intros [H1 H2]. eapply keys_within_trans; [done|]. by apply IH.
Qed.


Lemma touched_fill o q o' :
  0 ≤ Order.filled_quantity o → Order.fill o q = Ok o' → touched o'.
Proof.
  intros Hf H. apply order_fill_Ok in H as (Hq & Hle & ->).
  unfold touched. cbn. split; [lia|].
  destruct (Order.remaining_quantity o - q =? 0); [done|].
  destruct (0 <? Order.filled_quantity o + q) eqn:E; [done|lia].
Qed.

Lemma match_level_trace fuel k st st' out :
  match_level fuel k st = (st', out) →
  ∃ new,
    events st' = events st ++ new ∧
    log st' = log st ++ (ev_trade <$> new) ∧
    shrinking (book st) new (book st') ∧
    (0 ≤ Order.filled_quantity (order st) →
     (order st' = order st ∨ touched (order st')) ∧
     0 ≤ Order.filled_quantity (order st')).
Proof.
  revert st. induction fuel as [|fuel IH]; intros st.
  { cbn. intros [= <- <-]. exists []. rewrite !app_nil_r.
    split_and!; try done; [apply keys_within_refl|]. intros; split; [by left|done]. }
  cbn [match_level].
  destruct (Z.ltb_spec 0 (Order.remaining_quantity (order st))) as [Hpos|Hle].
  2:{ intros [= <- <-]. exists []. rewrite !app_nil_r.
      split_and!; try done; [apply keys_within_refl|]. intros; split; [by left|done]. }
  destruct (PriceLevel.orders (level st)) as [|r rest] eqn:Hq.
  { intros [= <- <-]. exists []. rewrite !app_nil_r.
    split_and!; try done; [apply keys_within_refl|]. intros; split; [by left|done]. }
  destruct (Order.fill (order st) _) as [o1|e] eqn:Hf1.
  2:{ intros [= <- <-]. exists []. rewrite !app_nil_r.
      split_and!; try done; [apply keys_within_refl|]. intros; split; [by left|done]. }
  destruct (Order.fill r _) as [r1|e] eqn:Hf2.
  { set (f := Z.min _ _) in *.
    destruct (if attached st then _ else _) as [l2 att2] eqn:Hl2.
    destruct (if Order.remaining_quantity r1 =? 0 then _ else _) as [l3 b3] eqn:Hl3.
    intros Hrec.
    assert (Hkeys : keys_within (book st) b3).
    { intros sd. destruct (Order.remaining_quantity r1 =? 0); simplify_eq.
      - rewrite side_book_set_orders, store_level_keys.
        etrans; [apply update_order_quantity_keys|]. by rewrite store_level_keys.
      - etrans; [apply update_order_quantity_keys|]. by rewrite store_level_keys. }
    apply IH in Hrec as (new & H1 & H2 & H3 & H5).
    cbn in *. eexists (_ :: new). split_and!.
    - by rewrite H1, <- app_assoc.
    - rewrite H2, <- app_assoc. done.
    - cbn. split; [apply keys_within_refl|]. by eapply shrinking_weaken.
    - intros Hf. pose proof (touched_fill _ _ _ Hf Hf1) as Ht.
      destruct H5 as [H5 H6]; [destruct Ht; lia|]. split; [|done].
      right. destruct H5 as [->|]; done. }
  intros [= <- <-]. exists []. cbn. rewrite !app_nil_r.
  split_and!; try done; [apply keys_within_refl|]. intros Hf.
  pose proof (touched_fill _ _ _ Hf Hf1) as Ht.
  split; [by right|destruct Ht; lia].
Qed.

Lemma set_contra_delete_keys o b k :
  keys_within b (set_contra o b (SortedDict.delete k (contra o b))).
Proof.
  intros sd. unfold set_contra, contra. apply side_book_set_keys.
  apply sd_keys_delete_sublist.
Qed.

Lemma match_book_trace fuel st st' out :
  match_book fuel st = (st', out) →
  ∃ new,
    o_events st' = o_events st ++ new ∧
    o_log st' = o_log st ++ (ev_trade <$> new) ∧
    shrinking (o_book st) new (o_book st') ∧
    (0 ≤ Order.filled_quantity (o_order st) →
     (o_order st' = o_order st ∨ touched (o_order st')) ∧
     0 ≤ Order.filled_quantity (o_order st')).
Proof.
  revert st. induction fuel as [|fuel IH]; intros st.
  { cbn. intros [= <- <-]. exists []. rewrite !app_nil_r.
    split_and!; try done; [apply keys_within_refl|]. intros; split; [by left|done]. }
  cbn [match_book].
  destruct (Z.ltb_spec 0 (Order.remaining_quantity (o_order st))) as [Hpos|Hle].
  2:{ intros [= <- <-]. exists []. rewrite !app_nil_r.
      split_and!; try done; [apply keys_within_refl|]. intros; split; [by left|done]. }
  destruct (SortedDict.first_key _) as [k|] eqn:Hk.
  2:{ intros [= <- <-]. exists []. rewrite !app_nil_r.
      split_and!; try done; [apply keys_within_refl|]. intros; split; [by left|done]. }
  destruct (beyond_limit _ _).
  { intros [= <- <-]. exists []. rewrite !app_nil_r.
    split_and!; try done; [apply keys_within_refl|]. intros; split; [by left|done]. }
  destruct (SortedDict.lookup k _) as [pl|] eqn:Hpl.
  2:{ intros [= <- <-]. exists []. rewrite !app_nil_r.
      split_and!; try done; [apply keys_within_refl|]. intros; split; [by left|done]. }
  destruct (match_level _ k _) as [m outi] eqn:Hm.
  intros Hrec.
  apply match_level_trace in Hm as (new1 & H1 & H2 & H3 & H5).
  cbn in H1, H2, H3, H5.
  destruct outi.
  - apply IH in Hrec as (new2 & G1 & G2 & G3 & G5). cbn in *.
    exists (new1 ++ new2). split_and!.
    + by rewrite G1, H1, app_assoc.
    + by rewrite G2, H2, fmap_app, app_assoc.
    + eapply shrinking_app; [done|].
      eapply shrinking_weaken; [|done].
      destruct (_ && _); [apply set_contra_delete_keys|apply keys_within_refl].
    + intros Hf. destruct (H5 Hf) as [H5a H5b]. destruct (G5 H5b) as [G5a G5b].
      split; [|done]. destruct G5a as [->|]; [|by right]. done.
  - injection Hrec as <- <-. exists new1. by split_and!.
  - injection Hrec as <- <-. exists new1. by split_and!.
Qed.

Lemma match_order_trace lg o b :
  let st' := (_match_order lg o b).1 in
  o_log st' = lg ++ trades_of st' ∧
  shrinking b (o_events st') (o_book st') ∧
  (0 ≤ Order.filled_quantity o → o_order st' = o ∨ touched (o_order st')).
Proof.
  unfold _match_order, trades_of.
  destruct (match_book _ _) as [st' out] eqn:E.
  apply match_book_trace in E as (new & H1 & H2 & H3 & H4).
  cbn in *. rewrite H1. split_and!; try done. intros Hf. by apply H4.
Qed.

(** ** The trade log *)

Lemma process_log lg o b : lg `prefix_of` p_log (process lg o b).
Proof.
  pose proof (match_order_trace lg o b) as (H & _). cbv zeta in H.
  unfold process, _process_market_order, _process_limit_order,
    _process_ioc_order, _process_fok_order.
  destruct (Order.order_type o);
    try (destruct (negb _); [done|]);
    destruct (_match_order lg o b) as [st out]; cbn in *;
    destruct out; cbn; try (by eexists);
    repeat (first [ destruct (0 <? _) | destruct (OrderBook.add_order _ _) ]; cbn;
            try (by eexists)).
Qed.

Lemma submit_order_log e o : trades e `prefix_of` trades (submit_order e o).1.1.
Proof.
  rewrite submit_order_unfold. cbv zeta.
  pose proof (process_log (trades e) o (get_or_create_order_book e (Order.symbol o)).2) as H.
  destruct (p_outcome _); cbn; done.
Qed.

Lemma cancel_order_log e symbol order_id :
  trades (cancel_order e symbol order_id).1.1 = trades e.
Proof.
  unfold cancel_order. destruct (order_books e !! symbol); [|done].
  destruct (OrderBook.remove_order _ _) as [b' [r|]]; done.
Qed.

(** X4.  The trade log is append-only: whatever the engine and the calls, the
    trades recorded before a sequence of calls are the first trades
    recorded after it, in the same order. *)
Theorem trade_log_append_only e cs :
  trades e `prefix_of` trades (after_calls e cs).
Proof.
  revert e. induction cs as [|c cs IH]; intros e; cbn; [done|].
  etrans; [|apply IH].
  destruct c; cbn; [apply submit_order_log|by rewrite cancel_order_log|done|done].
Qed.

(** ** The registry of books *)

Lemma submit_order_lookup e o sym :
  order_books (submit_order e o).1.1 !! sym
  = if decide (sym = Order.symbol o)
    then Some (p_book (process (trades e) o (get_or_create_order_book e (Order.symbol o)).2))
    else order_books e !! sym.
Proof.
  rewrite submit_order_unfold. cbv zeta.
  destruct (decide (sym = Order.symbol o)) as [->|Hne].
  - destruct (p_outcome _); cbn; by rewrite lookup_insert_eq.
  - assert (order_books (get_or_create_order_book e (Order.symbol o)).1 !! sym
            = order_books e !! sym) as H.
    { unfold get_or_create_order_book.
      destruct (order_books e !! Order.symbol o) eqn:E; cbn; [done|].
      by rewrite lookup_insert_ne. }
    destruct (p_outcome _); cbn; by rewrite lookup_insert_ne.
Qed.

Lemma cancel_order_lookup e symbol order_id sym :
  order_books (cancel_order e symbol order_id).1.1 !! sym
  = if decide (sym = symbol)
    then (fun b => (OrderBook.remove_order b order_id).1) <$> order_books e !! symbol
    else order_books e !! sym.
Proof.
  unfold cancel_order. destruct (order_books e !! symbol) as [b|] eqn:E.
  - cbn [fmap option_fmap option_map].
    destruct (OrderBook.remove_order b order_id) as [b' [r|]] eqn:R; cbn;
      (case_decide; subst; [by rewrite lookup_insert_eq|by rewrite lookup_insert_ne]).
  - cbn. case_decide; by subst.
Qed.

Lemma book_exists_iff e cs sym :
  is_Some (order_books (after_calls e cs) !! sym) ↔
  is_Some (order_books e !! sym) ∨ ∃ o, SubmitOrder o ∈ cs ∧ Order.symbol o = sym.
Proof.
  revert e. induction cs as [|c cs IH]; intros e; cbn.
  - split; [by left|]. intros [?|(o & H & _)]; [done|]. by apply elem_of_nil in H.
  - rewrite IH. setoid_rewrite elem_of_cons.
    destruct c as [o|s id|s|s d]; cbn.
    + rewrite submit_order_lookup. case_decide as E.
      * split; [|intros _; left; eauto]. intros _. right. exists o. split; [by left|done].
      * split.
        -- intros [?|(o' & ? & ?)]; [by left|]. right. exists o'. split; [by right|done].
        -- intros [?|(o' & [[= ->]|?] & ?)]; [by left|done|]. right. by exists o'.
    + rewrite cancel_order_lookup. case_decide as E.
      * subst. rewrite fmap_is_Some. split.
        -- intros [?|(o' & ? & ?)]; [by left|]. right. exists o'. split; [by right|done].
        -- intros [?|(o' & [?|?] & ?)]; [by left|done|]. right. by exists o'.
      * split.
        -- intros [?|(o' & ? & ?)]; [by left|]. right. exists o'. split; [by right|done].
        -- intros [?|(o' & [?|?] & ?)]; [by left|done|]. right. by exists o'.
    + split.
      * intros [?|(o' & ? & ?)]; [by left|]. right. exists o'. split; [by right|done].
      * intros [?|(o' & [?|?] & ?)]; [by left|done|]. right. by exists o'.
    + split.
      * intros [?|(o' & ? & ?)]; [by left|]. right. exists o'. split; [by right|done].
      * intros [?|(o' & [?|?] & ?)]; [by left|done|]. right. by exists o'.
Qed.

(** X5.  A book exists for a symbol exactly when it existed before or one of
    the calls made since was a submission for that symbol: cancels and
    queries create no book, and nothing removes one. *)
Theorem book_exists_iff_submitted e cs sym :
  is_Some (order_books (after_calls e cs) !! sym) ↔
  is_Some (order_books e !! sym) ∨ ∃ o, SubmitOrder o ∈ cs ∧ Order.symbol o = sym.
Proof. apply book_exists_iff. Qed.

(** X6.  A submission or a cancel for one symbol leaves the book of every other
    symbol as it was. *)
Theorem other_books_untouched e sym :
  (∀ o, Order.symbol o ≠ sym →
     order_books (submit_order e o).1.1 !! sym = order_books e !! sym) ∧
  (∀ symbol order_id, symbol ≠ sym →
     order_books (cancel_order e symbol order_id).1.1 !! sym = order_books e !! sym).
Proof.
  split.
  - intros o H. rewrite submit_order_lookup. by rewrite decide_False.
  - intros s id H. rewrite cancel_order_lookup. by rewrite decide_False.
Qed.

Lemma remove_order_symbol b id :
  OrderBook.symbol (OrderBook.remove_order b id).1 = OrderBook.symbol b.
Proof.
  unfold OrderBook.remove_order.
  destruct (OrderBook.orders b !! id) as [o|]; [|done].
  destruct (Order.price o) as [p|]; [|done].
  destruct (SortedDict.lookup p _) as [l|]; [|done].
  destruct (PriceLevel.remove_order l id) as [l' [r|]];
    destruct (PriceLevel.is_empty l'), (Order.side o); done.
Qed.

Lemma reachable_symbol e sym b :
  reachable e → order_books e !! sym = Some b → OrderBook.symbol b = sym.
Proof.
  intros H. revert sym b. induction H as [|e o H IH Hn|e s id H IH]; intros sym b.
  - cbn. by rewrite lookup_empty.
  - rewrite submit_order_lookup. case_decide as E; [|apply IH].
    intros [= <-]. subst.
    destruct (process_ok (trades e) o (get_or_create_order_book e (Order.symbol o)).2)
      as (_ & _ & ->); [by apply submit_book_ok|done|].
    unfold get_or_create_order_book.
    destruct (order_books e !! Order.symbol o) eqn:E; cbn; [by apply IH|done].
  - rewrite cancel_order_lookup. case_decide as E; [|apply IH]. subst.
    destruct (order_books e !! s) as [b0|] eqn:E0; [|done]. cbn.
    intros [= <-]. rewrite remove_order_symbol. by apply IH.
Qed.

(** X7.  In a reachable engine every book is registered under its own symbol,
    so the BBO and the snapshot returned for a symbol carry that symbol. *)
Theorem responses_carry_symbol e sym depth :
  reachable e →
  (∀ b, order_books e !! sym = Some b → OrderBook.symbol b = sym) ∧
  (∀ d, get_bbo e sym = Some d → d !! "symbol" = Some (PyStr sym)) ∧
  (∀ d, get_order_book_snapshot e sym depth = Some d → d !! "symbol" = Some (PyStr sym)).
Proof.
  intros H. split_and!.
  - intros b. by apply reachable_symbol.
  - unfold get_bbo. intros d. destruct (order_books e !! sym) as [b|] eqn:E; [|done].
    intros [= <-]. unfold BBO.to_dict. rewrite lookup_insert_eq.
    cbn. by rewrite (reachable_symbol e sym b).
  - unfold get_order_book_snapshot. intros d.
    destruct (order_books e !! sym) as [b|] eqn:E; [|done].
    intros [= <-]. unfold OrderBookSnapshot.to_dict. rewrite lookup_insert_eq.
    cbn. by rewrite (reachable_symbol e sym b).
Qed.

Lemma responses_carry_symbol_witness :
  ∃ d, get_bbo sample_engine "BTC-USDT" = Some d ∧ d !! "symbol" = Some (PyStr "BTC-USDT").
Proof.
  destruct (responses_carry_symbol sample_engine "BTC-USDT" 10 reachable_sample_engine)
    as (_ & H & _).
  eexists. split; [reflexivity|]. apply H. reflexivity.
Defined.

(** ** What a submission does, by cases *)

Lemma process_cases lg o b :
  book_ok b → new_order o →
  (Order.order_type o = FOK ∧ _can_fill_completely o b = false ∧
   process lg o b = mk_processed (Order.set_status o CANCELLED) b lg [] Completed)
  ∨
  (∃ st',
     (Order.order_type o = FOK → _can_fill_completely o b = true) ∧
     _match_order lg o b = (st', Completed) ∧
     book_post (mk_ostate o b [] lg) st' ∧
     p_outcome (process lg o b) = Completed ∧
     p_log (process lg o b) = o_log st' ∧
     p_trades (process lg o b) = trades_of st' ∧
     p_order (process lg o b)
     = (if bool_decide (Order.order_type o = IOC ∨ Order.order_type o = MARKET)
           && (0 <? Order.remaining_quantity (o_order st'))
        then Order.set_status (o_order st') CANCELLED else o_order st') ∧
     contra o (p_book (process lg o b)) = contra o (o_book st') ∧
     (Order.order_type o ≠ LIMIT ∨ Order.remaining_quantity (o_order st') = 0 →
      p_book (process lg o b) = o_book st') ∧
     (Order.order_type o = LIMIT → Order.remaining_quantity (o_order st') ≠ 0 →
      OrderBook.add_order (o_book st') (o_order st') = Ok (p_book (process lg o b)))).
Proof.
  intros Hb Hn. unfold process. destruct (Order.order_type o) eqn:Ht.
  - destruct (process_market_ok lg o b Hb Hn) as (st' & H1 & H2 & ->).
    right. exists st'. cbn. split_and!; try done; try (intros [?|?]; done).
  - destruct (process_limit_ok lg o b Hb Hn Ht) as (st' & H1 & H2 & H3).
    cbv zeta in H3. destruct H3 as (G1 & G2 & G3 & G4 & G5 & G6 & G7 & G8 & G9).
    right. exists st'. rewrite bool_decide_eq_false_2 by (intros [?|?]; done).
    cbn. split_and!; try done; try (intros [?|?]; [done|auto]).
  - destruct (process_ioc_ok lg o b Hb Hn) as (st' & H1 & H2 & ->).
    right. exists st'. cbn. split_and!; try done; try (intros [?|?]; done).
  - destruct (process_fok_ok lg o b Hb Hn) as [[H1 ->]|(H1 & st' & H2 & H3 & H4 & H5 & H6 & ->)].
    + by left.
    + right. exists st'. rewrite bool_decide_eq_false_2 by (intros [?|?]; done).
      cbn. split_and!; try done.
Qed.

Lemma book_post_new lg o b st' :
  book_ok b → new_order o →
  book_post (mk_ostate o b [] lg) st' →
  let f := Z.min (Order.quantity o) (available o (contra o b)) in
  0 ≤ f ∧
  Order.filled_quantity (o_order st') = f ∧
  Order.remaining_quantity (o_order st') = Order.quantity o - f ∧
  Order.order_id (o_order st') = Order.order_id o ∧
  Order.symbol (o_order st') = Order.symbol o ∧
  Order.order_type (o_order st') = Order.order_type o ∧
  Order.side (o_order st') = Order.side o ∧
  Order.quantity (o_order st') = Order.quantity o ∧
  Order.price (o_order st') = Order.price o ∧
  o_log st' = lg ++ trades_of st' ∧
  sum_quantity (trades_of st') = f ∧
  Forall (event_ok o) (o_events st').
Proof.
  intros Hb Hn [Ho _ _ _ _ _ _ _ _ (new & E1 & E2 & E3 & E4 & _)]. cbn in *.
  destruct (new_order_facts o Hn) as (Hq & Hr & Hf & _).
  rewrite Hr in *. set (f := Z.min _ _) in *.
  assert (0 ≤ available o (contra o b)) as Ha.
  { eapply available_nonneg. apply (ok_levels b Hb). }
  unfold trades_of. rewrite E1. rewrite Ho. cbn.
  split_and!; try done; try lia.
Qed.















(** ** The status of a LIMIT order *)



(** ** Marketable orders *)







(** ** The first trade of a submission *)









(** ** Resting an order and taking it back *)








(** ** What the books of a reachable engine look like *)











(** ** The REST handlers *)



(** X24.  The handlers for the BBO and for the order book answer 404 with detail
    "No order book for ..." exactly when no order was ever submitted for
    the symbol; otherwise they return a dictionary. *)
Theorem api_not_found_iff_never_submitted cs sym depth :
  let e := after_calls MatchingEngine.init cs in
  ((∃ o, SubmitOrder o ∈ cs ∧ Order.symbol o = sym) →
   (∃ d, api.get_bbo e sym = api.Returned d) ∧
   (∃ d, api.get_order_book e sym depth = api.Returned d)) ∧
  ((∀ o, SubmitOrder o ∈ cs → Order.symbol o ≠ sym) →
   api.get_bbo e sym = api.HTTPException 404 (Some ("No order book for " +:+ sym)) ∧
   api.get_order_book e sym depth
   = api.HTTPException 404 (Some ("No order book for " +:+ sym))).
Proof.
  cbv zeta. pose proof (book_exists_iff MatchingEngine.init cs sym) as H.
  unfold api.get_bbo, api.get_order_book, get_bbo, get_order_book_snapshot.
  split.
  - intros Hs. destruct (proj2 H (or_intror Hs)) as [b ->]. eauto.
  - intros Hn. destruct (order_books (after_calls init cs) !! sym) as [b|] eqn:E; [|done].
    exfalso. destruct (proj1 H (mk_is_Some _ _ eq_refl)) as [[? Hi]|(o & Ho & Hsym)].
    + cbn in Hi. by rewrite lookup_empty in Hi.
    + by eapply Hn.
Qed.

(** ** The properties at sample inputs *)





(** ** Conservation of the resting quantity *)













(** ** What a submission leaves in the book *)

(** X27.  An order comes to rest only as a LIMIT order with quantity left.  After
    a submission to a reachable engine every entry of the id index was
    there before, except for the entry of the submitted order itself, which
    is there only when the order is a LIMIT order with quantity remaining;
    in every other case the order's own side of the book is as it was. *)
Theorem only_limit_residuals_rest e o :
  reachable e → new_order o →
  let b := (get_or_create_order_book e (Order.symbol o)).2 in
  let o' := (submit_order e o).1.2 in
  ∃ b',
    order_books (submit_order e o).1.1 !! Order.symbol o = Some b' ∧
    (∀ id x, OrderBook.orders b' !! id = Some x →
       OrderBook.orders b !! id = Some x ∨
       (id = Order.order_id o ∧ x = o' ∧ Order.order_type o = LIMIT ∧
        0 < Order.remaining_quantity o')) ∧
    (Order.order_type o ≠ LIMIT ∨ Order.remaining_quantity o' = 0 →
     OrderBook.side_book b' (Order.side o) = OrderBook.side_book b (Order.side o)).
Proof.
  intros He Hn b o'.
  destruct (submit_order_book e o He Hn) as (Hbk & Ho'). cbv zeta in Hbk, Ho'.
  fold b in Hbk, Ho'. subst o'. rewrite Ho'. eexists. split; [exact Hbk|].
  assert (book_ok b) as Hb by by apply submit_book_ok.
  destruct (process_cases (trades e) o b Hb Hn)
    as [(Ht & _ & ->)|(st' & _ & Hm & Hp & G1 & G2 & G3 & G4 & G5 & G6 & G7)].
  - cbn. split; [by left|done].
  - destruct (book_post_new _ _ _ _ Hb Hn Hp)
      as (F0 & F1 & F2 & F3 & _ & _ & _ & _ & F8 & _).
    pose proof (bp_own _ _ Hp) as Hown. pose proof (bp_index _ _ Hp) as Hidx.
    cbn in Hown, Hidx.
    assert (Order.remaining_quantity (p_order (process (trades e) o b))
            = Order.remaining_quantity (o_order st')) as Hrem.
    { rewrite G4. by destruct (_ && _). }
    rewrite Hrem.
    destruct (decide (Order.order_type o = LIMIT
                      ∧ Order.remaining_quantity (o_order st') ≠ 0)) as [[Ht Hnz]|Hno].
    + specialize (G7 Ht Hnz). split; [|intros [?|?]; done].
      rewrite bool_decide_eq_false_2 in G4 by (rewrite Ht; intros [?|?]; done).
      cbn in G4. rewrite G4. intros id x Hx.
      revert G7 Hx. unfold OrderBook.add_order.
      destruct (Z.leb_spec (Order.remaining_quantity (o_order st')) 0); [lia|].
      destruct (Order.price (o_order st')); [|done]. intros [= <-]. cbn.
      intros [[<- <-]|[_ Hold]]%lookup_insert_Some.
      * right. split_and!; try done.
      * left. by apply Hidx.
    + assert (p_book (process (trades e) o b) = o_book st') as ->.
      { apply G6. destruct (decide (Order.order_type o = LIMIT)); [|by left].
        right. destruct (decide (Order.remaining_quantity (o_order st') = 0)); [done|].
        destruct Hno. done. }
      split; [|done]. intros id x Hx. left. by apply Hidx.
Qed.

Lemma only_limit_residuals_rest_witness :
  ∃ b',
    order_books (submit_order sample_engine sample_ioc).1.1 !! "BTC-USDT" = Some b' ∧
    OrderBook.bids b' = [].
Proof.
  destruct (only_limit_residuals_rest sample_engine sample_ioc
              reachable_sample_engine new_order_sample_ioc) as (b' & H1 & _ & H2).
  exists b'. split; [exact H1|]. apply H2. left. done.
Defined.

(** X28.  The loops of [_match_order] come to an end on every book, well formed
    or not: the fuel given to them is never used up, so [submit_order]
    returns an execution report or a rejection for every engine and every
    order. *)
Theorem matching_terminates e o lg b :
  match (_match_order lg o b).2 with
  | OutOfFuel => False
  | Completed | Raised _ => True
  end ∧
  match (submit_order e o).2 with
  | Diverged => False
  | ExecutionReport _ _ _ _ _ | RejectedReport _ _ _ => True
  end.
Proof.
  pose proof (match_order_terminates lg o b) as H1.
  pose proof (submit_order_returns e o) as H2.
  split.
  - by destruct (_match_order lg o b).2.
  - by destruct (submit_order e o).2.
Qed.

(** ** A maker that is not used up keeps its place *)






